(** * Retrieval-and-verification pipeline of accuracy-enhance-RAG

    A shallow embedding of the chunker, the claim verifier, the ensemble
    aggregation, the adversarial validator and the orchestrator of
    [src/app.py], and of [retrieve_documents] in [src/app2.py], with the
    properties the specification states about them. Further properties
    (marked X) cover the same functions beyond the specification, and the
    scoring loop of [semantic_rag_with_reranking], the handler of
    [/api/validate-answer], and of [src/app2.py] the query enhancement,
    the upsert batches, the batch upload and the listing of a user's
    documents.

    Conventions.
    - Python [str] is modelled by [string]; the character-class helpers
      ([isspace], [lower]) follow CPython on the ASCII range and leave the
      other characters alone.
    - Python [int] parameters ([chunk_size], [overlap], [top_k],
      [num_passes]) are [Z]; the result of [len] is [nat].
    - Python [float] values that the code compares against constants are
      modelled by exact rationals ([Q]).
    - The collaborators the code calls but does not define ([hashlib],
      [difflib], the Together completion endpoint, the embedder and the
      vector index) are interfaces (type classes); every definition is
      parametric in them. *)

From Stdlib Require Import ZArith NArith QArith Qminmax Lqa String Ascii List Permutation.
From stdpp Require Import base option list strings gmap sorting.

(** ** Python text primitives *)

Module Py.

(** [str.isspace] on one ASCII character: TAB..CR, FS..US and SPACE. *)
Definition isspace (c : ascii) : bool :=
  let n := nat_of_ascii c in
  ((9 <=? n) && (n <=? 13)) || ((28 <=? n) && (n <=? 31)) || (n =? 32).

Definition lower_char (c : ascii) : ascii :=
  let n := nat_of_ascii c in
  if (65 <=? n) && (n <=? 90) then ascii_of_nat (n + 32) else c.

(** [s.lower()] *)
Fixpoint lower (s : string) : string :=
  match s with
  | EmptyString => EmptyString
  | String c s' => String (lower_char c) (lower s')
  end.

(** [s.isascii()]: the texts on which [lower], [split] and [strip] below
    are CPython's, character for character. Outside this range
    [str.lower] depends on the context of a character (a final sigma is
    lowered differently), so it is not a map over the characters. *)
Fixpoint isascii (s : string) : bool :=
  match s with
  | EmptyString => true
  | String c s' => (nat_of_ascii c <? 128) && isascii s'
  end.

Definition push_word (w : string) (ws : list string) : list string :=
  match w with
  | EmptyString => ws
  | _ => w :: ws
  end.

(** One right-to-left pass: the word that is still open at the front of
    [s], and the words after it. *)
Fixpoint split_go (s : string) : string * list string :=
  match s with
  | EmptyString => (EmptyString, [])
  | String c s' =>
      let '(w, ws) := split_go s' in
      if isspace c then (EmptyString, push_word w ws) else (String c w, ws)
  end.

(** [s.split()]: the maximal runs of non-space characters. *)
Definition split (s : string) : list string :=
  let '(w, ws) := split_go s in push_word w ws.

Fixpoint split_char_go (sep : ascii) (s : string) : string * list string :=
  match s with
  | EmptyString => (EmptyString, [])
  | String c s' =>
      let '(w, ws) := split_char_go sep s' in
      if Ascii.eqb c sep then (EmptyString, w :: ws) else (String c w, ws)
  end.

(** [s.split(sep)] for a one-character separator: empty pieces are kept. *)
Definition split_char (sep : ascii) (s : string) : list string :=
  let '(w, ws) := split_char_go sep s in w :: ws.

Fixpoint lstrip (s : string) : string :=
  match s with
  | EmptyString => EmptyString
  | String c s' => if isspace c then lstrip s' else s
  end.

Fixpoint rstrip (s : string) : string :=
  match s with
  | EmptyString => EmptyString
  | String c s' =>
      match rstrip s' with
      | EmptyString => if isspace c then EmptyString else String c EmptyString
      | r => String c r
      end
  end.

(** [s.strip()] *)
Definition strip (s : string) : string := rstrip (lstrip s).

(** [s.startswith(p)] *)
Definition startswith (s p : string) : bool := String.prefix p s.

(** [p in s] *)
Fixpoint contains (s p : string) : bool :=
  String.prefix p s ||
  match s with
  | EmptyString => false
  | String _ s' => contains s' p
  end.

(** [sep.join(l)] *)
Definition join (sep : string) (l : list string) : string :=
  String.concat sep l.

(** [re.split(r'[...]+', s)] for a character class [delim]: the pieces
    between maximal runs of delimiters, empty pieces at either end kept. *)
Fixpoint re_split_go (delim : ascii -> bool) (in_run : bool) (s : string)
  : string * list string :=
  match s with
  | EmptyString => (EmptyString, [])
  | String c s' =>
      if delim c then
        if in_run then re_split_go delim true s'
        else let '(w, ws) := re_split_go delim true s' in (EmptyString, w :: ws)
      else
        let '(w, ws) := re_split_go delim false s' in (String c w, ws)
  end.

Definition re_split_class (delim : ascii -> bool) (s : string) : list string :=
  let '(w, ws) := re_split_go delim false s in w :: ws.

Definition is_terminator (c : ascii) : bool :=
  Ascii.eqb c "." || Ascii.eqb c "!" || Ascii.eqb c "?".

(** Scanner state for [re.split(r'(?<=[.!?])\s+', s)]. *)
Inductive mode := Plain | AfterTerminator | InSeparator.

Definition mode_after (c : ascii) : mode :=
  if is_terminator c then AfterTerminator else Plain.

Fixpoint sentences_go (m : mode) (s : string) : string * list string :=
  match s with
  | EmptyString => (EmptyString, [])
  | String c s' =>
      if isspace c then
        match m with
        | Plain => let '(w, ws) := sentences_go Plain s' in (String c w, ws)
        | AfterTerminator =>
            let '(w, ws) := sentences_go InSeparator s' in (EmptyString, w :: ws)
        | InSeparator => sentences_go InSeparator s'
        end
      else
        let '(w, ws) := sentences_go (mode_after c) s' in (String c w, ws)
  end.

(** [re.split(r'(?<=[.!?])\s+', s)]: cut at every run of white space that
    directly follows a terminator; the terminator stays with its piece. *)
Definition re_split_sentences (s : string) : list string :=
  let '(w, ws) := sentences_go Plain s in w :: ws.

(** [l[:k]] and [l[k:]] for a Python integer [k]: a negative bound counts
    from the end, and bounds outside the list are clipped. *)
Definition slice_to {A} (k : Z) (l : list A) : list A :=
  if (0 <=? k)%Z then take (Z.to_nat k) l
  else take (length l - Z.to_nat (- k)) l.

Definition slice_from {A} (k : Z) (l : list A) : list A :=
  if (0 <=? k)%Z then drop (Z.to_nat k) l
  else drop (length l - Z.to_nat (- k)) l.

End Py.

(** ** Chunker: [AdvancedHallucinationReducer.chunk_document_smart] *)

(** [hashlib.md5(text.encode()).hexdigest()] *)
Class Hashlib := { md5_hexdigest : string -> string }.

(** MD5 as RFC 1321 defines it, on the characters of the text taken as its
    bytes; it is the instance the examples run with. *)
Module MD5.
Local Open Scope N_scope.

Definition word (x : N) : N := x mod 4294967296.

Definition rotl (x c : N) : N :=
  word (N.lor (N.shiftl x c) (N.shiftr x (32 - c))).

Definition complement (x : N) : N := 4294967295 - x.

Definition shifts : list N :=
  [7; 12; 17; 22; 7; 12; 17; 22; 7; 12; 17; 22; 7; 12; 17; 22;
   5; 9; 14; 20; 5; 9; 14; 20; 5; 9; 14; 20; 5; 9; 14; 20;
   4; 11; 16; 23; 4; 11; 16; 23; 4; 11; 16; 23; 4; 11; 16; 23;
   6; 10; 15; 21; 6; 10; 15; 21; 6; 10; 15; 21; 6; 10; 15; 21].

(** [floor(2^32 * abs(sin(i + 1)))] for [i] from 0 to 63. *)
Definition sines : list N :=
  [3614090360; 3905402710; 606105819; 3250441966;
   4118548399; 1200080426; 2821735955; 4249261313;
   1770035416; 2336552879; 4294925233; 2304563134;
   1804603682; 4254626195; 2792965006; 1236535329;
   4129170786; 3225465664; 643717713; 3921069994;
   3593408605; 38016083; 3634488961; 3889429448;
   568446438; 3275163606; 4107603335; 1163531501;
   2850285829; 4243563512; 1735328473; 2368359562;
   4294588738; 2272392833; 1839030562; 4259657740;
   2763975236; 1272893353; 4139469664; 3200236656;
   681279174; 3936430074; 3572445317; 76029189;
   3654602809; 3873151461; 530742520; 3299628645;
   4096336452; 1126891415; 2878612391; 4237533241;
   1700485571; 2399980690; 4293915773; 2240044497;
   1873313359; 4264355552; 2734768916; 1309151649;
   4149444226; 3174756917; 718787259; 3951481745].

Definition le_bytes (n : nat) (x : N) : list N :=
  (fun i => N.shiftr x (8 * N.of_nat i) mod 256) <$> seq 0 n.

(** What follows the message: 0x80, zeros up to 56 modulo 64, and the bit
    length as eight little-endian bytes. *)
Definition padding (len : nat) : list N :=
  let zeros := ((119 - len mod 64) mod 64)%nat in
  128 :: replicate zeros 0 ++ le_bytes 8 (8 * N.of_nat len).

Definition le_word (bs : list N) : N :=
  foldr (fun b acc => b + 256 * acc) 0 bs.

Fixpoint words_of_bytes (n : nat) (bs : list N) : list N :=
  match n with
  | O => []
  | S n' => le_word (take 4 bs) :: words_of_bytes n' (drop 4 bs)
  end.

Definition state : Type := N * N * N * N.

Definition step (m : list N) (st : state) (i : nat) : state :=
  let '(a, b, c, d) := st in
  let '(f, g) :=
    match Nat.div i 16 with
    | 0%nat => (N.lor (N.land b c) (N.land (complement b) d), i)
    | 1%nat => (N.lor (N.land d b) (N.land (complement d) c),
                ((5 * i + 1) mod 16)%nat)
    | 2%nat => (N.lxor (N.lxor b c) d, ((3 * i + 5) mod 16)%nat)
    | _ => (N.lxor c (N.lor b (complement d)), ((7 * i) mod 16)%nat)
    end in
  let f' := word (f + a + sines !!! i + m !!! g) in
  (d, word (b + rotl f' (shifts !!! i)), b, c).

Definition compress (st : state) (block : list N) : state :=
  let m := words_of_bytes 16 block in
  let '(a, b, c, d) := foldl (step m) st (seq 0 64) in
  let '(a0, b0, c0, d0) := st in
  (word (a0 + a), word (b0 + b), word (c0 + c), word (d0 + d)).

Fixpoint blocks (n : nat) (st : state) (bs : list N) : state :=
  match n with
  | O => st
  | S n' => blocks n' (compress st (take 64 bs)) (drop 64 bs)
  end.

Definition hex_digit (x : N) : ascii :=
  default "0"%char (list_ascii_of_string "0123456789abcdef" !! N.to_nat x).

Definition hex_byte (b : N) : string :=
  String (hex_digit (b / 16)) (String (hex_digit (b mod 16)) EmptyString).

Definition digest (bytes : list N) : list N :=
  let padded := bytes ++ padding (length bytes) in
  let '(a, b, c, d) :=
    blocks (Nat.div (length padded) 64)
           (1732584193, 4023233417, 2562383102, 271733878) padded in
  le_bytes 4 a ++ le_bytes 4 b ++ le_bytes 4 c ++ le_bytes 4 d.

Definition hexdigest (s : string) : string :=
  String.concat EmptyString
    (hex_byte <$> digest (N_of_ascii <$> list_ascii_of_string s)).
End MD5.

Definition hashlib_md5 : Hashlib := {| md5_hexdigest := MD5.hexdigest |}.

Record Chunk := {
  chunk_id : string;
  chunk_text : string;
  sentence_range : nat * nat;
  word_count : nat
}.

Module Chunker.
Section WithHashlib.
Context {hashlib : Hashlib}.

(** [len(s.split())] *)
Definition words_of (s : string) : nat := length (Py.split s).

(** [sum(len(s.split()) for s in buffer)] *)
Definition total_words (buffer : list string) : nat :=
  sum_list (words_of <$> buffer).

Record loop_state := {
  chunks : list Chunk;
  current_chunk : list string;
  current_length : nat
}.

Definition make_chunk (buffer : list string) (len : nat) (range : nat * nat)
  : Chunk :=
  let chunk_text := Py.join " " buffer in
  {| chunk_id := String.substring 0 8 (md5_hexdigest chunk_text);
     chunk_text := chunk_text;
     sentence_range := range;
     word_count := len |}.

(** The inner loop [for s in reversed(current_chunk)], started on the
    reversed buffer with [overlap_sentences = []] and [overlap_words = 0]. *)
Fixpoint overlap_loop (overlap : Z) (reversed : list string)
         (overlap_sentences : list string) (overlap_words : nat)
  : list string :=
  match reversed with
  | [] => overlap_sentences
  | s :: rest =>
      if (Z.of_nat overlap_words <? overlap)%Z
      then overlap_loop overlap rest (s :: overlap_sentences)
                        (overlap_words + words_of s)
      else overlap_sentences
  end.

Definition keep_overlap (overlap : Z) (buffer : list string) : list string :=
  overlap_loop overlap (reverse buffer) [] 0.

(** Whether the body of the loop closes the running chunk. *)
Definition closes (chunk_size : Z) (st : loop_state) (sentence : string)
  : bool :=
  (chunk_size <? Z.of_nat (current_length st + words_of sentence))%Z
  && bool_decide (current_chunk st <> []).

(** One iteration of [for i, sentence in enumerate(sentences)]. *)
Definition chunk_body (chunk_size overlap : Z) (st : loop_state)
           (i : nat) (sentence : string) : loop_state :=
  let sentence_length := words_of sentence in
  if closes chunk_size st sentence then
    let closed :=
      make_chunk (current_chunk st) (current_length st)
                 (length (chunks st), i) in
    let overlap_sentences := keep_overlap overlap (current_chunk st) in
    let current_chunk' := overlap_sentences ++ [sentence] in
    {| chunks := chunks st ++ [closed];
       current_chunk := current_chunk';
       current_length := total_words current_chunk' |}
  else
    {| chunks := chunks st;
       current_chunk := current_chunk st ++ [sentence];
       current_length := current_length st + sentence_length |}.

Fixpoint chunk_loop (chunk_size overlap : Z) (st : loop_state) (i : nat)
         (sentences : list string) : loop_state :=
  match sentences with
  | [] => st
  | sentence :: rest =>
      chunk_loop chunk_size overlap
                 (chunk_body chunk_size overlap st i sentence) (S i) rest
  end.

Definition initial : loop_state :=
  {| chunks := []; current_chunk := []; current_length := 0 |}.

(** The flush after the loop. *)
Definition flush (st : loop_state) (n_sentences : nat) : list Chunk :=
  match current_chunk st with
  | [] => chunks st
  | _ => chunks st ++ [make_chunk (current_chunk st) (current_length st)
                                  (length (chunks st), n_sentences)]
  end.

Definition chunk_document_smart (text : string) (chunk_size overlap : Z)
  : list Chunk :=
  let sentences := Py.re_split_sentences text in
  flush (chunk_loop chunk_size overlap initial 0 sentences)
        (length sentences).

(** The sentences a chunk inherits: none for the first chunk, otherwise
    what [keep_overlap] keeps of the buffer closed just before it. *)
Definition carried (overlap : Z) (buffers : list (list string)) (k : nat)
  : list string :=
  match k with
  | 0 => []
  | S j => keep_overlap overlap (default [] (buffers !! j))
  end.

(** The shape every emitted buffer has: within [chunk_size] words, or the
    inherited sentences followed by exactly one new sentence. *)
Definition well_shaped (chunk_size overlap : Z)
           (buffers : list (list string)) (k : nat) (buffer : list string)
  : Prop :=
  (Z.of_nat (total_words buffer) <= chunk_size)%Z
  \/ exists sentence, buffer = carried overlap buffers k ++ [sentence].

Definition fingerprint (text : string) : string :=
  String.substring 0 8 (md5_hexdigest text).

(** What the loop maintains: [buffers] are the sentence lists of the
    chunks emitted so far. *)
Record inv (chunk_size overlap : Z) (all : list string) (st : loop_state)
       (buffers : list (list string)) : Prop := {
  inv_text : chunk_text <$> chunks st = Py.join " " <$> buffers;
  inv_count : word_count <$> chunks st = total_words <$> buffers;
  inv_length : current_length st = total_words (current_chunk st);
  inv_shape : forall k b,
      buffers !! k = Some b -> well_shaped chunk_size overlap buffers k b;
  inv_first : current_chunk st = [] -> buffers = [];
  inv_current : current_chunk st <> [] ->
      well_shaped chunk_size overlap buffers (length buffers)
                  (current_chunk st);
  inv_members : Forall (Forall (fun s => s ∈ all)) buffers;
  inv_members_current : Forall (fun s => s ∈ all) (current_chunk st)
}.

End WithHashlib.
End Chunker.

(** ** Claim extraction, consensus and verification *)

(** [difflib.SequenceMatcher(None, a, b).ratio()] *)
Class Difflib := { SequenceMatcher_ratio : string -> string -> Q }.

Definition Qlt_bool (x y : Q) : bool := negb (Qle_bool y x).

Record EnsembleResult := {
  consensus_answer : string;
  confidence : Q;
  agreement_score : Q;
  all_responses : list string;
  verified_claims : list string
}.

Module Ensemble.
Section WithDifflib.
Context {difflib : Difflib}.

Definition meta_prefixes : list string :=
  ["answer:"; "response:"; "note:"; "certainty:"; "evidence:"].

Definition certainty_tokens : list string :=
  ["certain"; "likely"; "uncertain"].

(** The filter of [_extract_claims], on an already stripped sentence. *)
Definition is_claim (s : string) : bool :=
  (20 <? String.length s)
  && negb (existsb (Py.startswith (Py.lower s)) meta_prefixes)
  && negb (bool_decide (Py.lower s ∈ certainty_tokens)).

Definition _extract_claims (text : string) : list string :=
  let sentences := Py.re_split_class Py.is_terminator text in
  filter (fun s => is_claim s = true) (Py.strip <$> sentences).

Definition is_sentence_break (c : ascii) : bool :=
  Py.is_terminator c || Ascii.eqb c "010".

Definition _verify_claim_in_document (claim document : string) : bool :=
  let claim_lower := Py.lower claim in
  let doc_lower := Py.lower document in
  let words := Py.split claim_lower in
  if length words <? 3 then Py.contains doc_lower claim_lower
  else
    let claim_words : gset string := list_to_set words in
    let doc_words : gset string := list_to_set (Py.split doc_lower) in
    let overlap_ratio : Q :=
      (inject_Z (Z.of_nat (size (claim_words ∩ doc_words)))
       / inject_Z (Z.of_nat (size claim_words)))%Q in
    if Qlt_bool overlap_ratio 0.5 then false
    else
      let doc_sentences := Py.re_split_class is_sentence_break doc_lower in
      existsb (fun sentence =>
                 Qlt_bool 0.7 (SequenceMatcher_ratio claim_lower
                                                     (Py.strip sentence)))
              doc_sentences.

(** The two tests a claim of three or more words has to pass: at least
    half of its distinct words are words of the document, and one
    sentence of the document is similar to it beyond 0.7; all texts
    lowercased. *)
Definition shares_half_its_words (claim document : string) : Prop :=
  let claim_words : gset string := list_to_set (Py.split (Py.lower claim)) in
  let doc_words : gset string :=
    list_to_set (Py.split (Py.lower document)) in
  size claim_words <= 2 * size (claim_words ∩ doc_words).

Definition resembles_a_sentence (claim document : string) : Prop :=
  exists sentence,
    sentence ∈ Py.re_split_class is_sentence_break (Py.lower document)
    /\ (0.7 < SequenceMatcher_ratio (Py.lower claim) (Py.strip sentence))%Q.

(** [collections.Counter]: a dictionary in first-insertion order. *)
Fixpoint counter_add (x : string) (c : list (string * nat))
  : list (string * nat) :=
  match c with
  | [] => [(x, 1)]
  | (y, n) :: rest =>
      if decide (x = y) then (y, S n) :: rest
      else (y, n) :: counter_add x rest
  end.

Definition Counter (l : list string) : list (string * nat) :=
  foldl (fun c x => counter_add x c) [] l.

Definition all_claims (responses : list string) : list string :=
  concat (_extract_claims <$> responses).

Definition consensus_claims (responses : list string) : list string :=
  let claim_counts := Counter (all_claims responses) in
  (filter (fun '(claim, count) => 2 <= count) claim_counts).*1.

Definition Qlen {A} (l : list A) : Q := inject_Z (Z.of_nat (length l)).

Definition _aggregate_ensemble_responses (responses : list string)
           (document : string) : EnsembleResult :=
  let all_claims := all_claims responses in
  let consensus_claims := consensus_claims responses in
  let verified_claims :=
    filter (fun claim => _verify_claim_in_document claim document = true)
           consensus_claims in
  match responses with
  | [] =>
      {| consensus_answer := "Unable to generate response";
         confidence := 0.0;
         agreement_score := 0.0;
         all_responses := [];
         verified_claims := [] |}
  | first :: _ =>
      {| consensus_answer :=
           match verified_claims with
           | [] => first
           | _ => Py.join " " verified_claims
           end;
         confidence :=
           match consensus_claims with
           | [] => 0.5
           | _ => (Qlen verified_claims
                   / inject_Z (Z.of_nat (length consensus_claims `max` 1)))%Q
           end;
         agreement_score :=
           match all_claims with
           | [] => 0.0
           | _ => (Qlen consensus_claims
                   / inject_Z (Z.of_nat (length all_claims `max` 1)))%Q
           end;
         all_responses := responses;
         verified_claims := verified_claims |}
  end.

(** [_cross_validate]: the share of the answer's sentences (longer than
    ten characters once stripped) that the document supports. *)
Definition _cross_validate (answer document : string) : Q :=
  let answer_sentences := Py.re_split_class Py.is_terminator answer in
  let long := filter (fun s => 10 < String.length (Py.strip s))
                     answer_sentences in
  let supported_count :=
    length (filter (fun s => _verify_claim_in_document s document = true)
                   long) in
  (inject_Z (Z.of_nat supported_count)
   / inject_Z (Z.of_nat (length long `max` 1)))%Q.

(** How often [x] occurs in [l], and the count a [Counter] holds for
    [x]. *)
Definition occurrences (x : string) (l : list string) : nat :=
  length (filter (fun y => y = x) l).

Fixpoint count_in (c : list (string * nat)) (x : string) : nat :=
  match c with
  | [] => 0
  | (y, n) :: rest => (if decide (y = x) then n else 0) + count_in rest x
  end.

End WithDifflib.
End Ensemble.

(** ** The completion endpoint and the effects of the pipeline *)

(** The three prompt variations of [ensemble_extraction], in list order. *)
Inductive Template := StrictCitation | ChainOfThought | NegativeInstruction.

(** A rendered prompt, kept as the template and the values substituted
    into it. *)
Inductive Prompt :=
| EnsemblePrompt (template : Template) (document query : string)
| FactExtractionPrompt (document query : string)
| AnswerPrompt (extracted_facts query : string)
| AdversarialPrompt (document query answer : string).

(** The keyword arguments of [together.Complete.create]. *)
Record Completion := {
  model : string;
  prompt : Prompt;
  max_tokens : Z;
  temperature : Q;
  top_p : option Q;
  repetition_penalty : option Q
}.

(** What one call does: it yields [response['choices'][0]['text']] or it
    raises, with [str(e)] as the message. *)
Inductive Reply := Returns (text : string) | Raises (message : string).

(** The endpoint: a state of the outside world and its reaction to a call. *)
Class Together := {
  World : Type;
  Complete_create : Completion -> World -> Reply * World
}.

Inductive outcome (A : Type) :=
| Value (a : A)
| Exception (message : string).
Arguments Value {A} a.
Arguments Exception {A} message.

Record FactResult := {
  extracted_facts : string;
  answer : string;
  validation_score : Q;
  reliable : bool
}.

Record ValidationResult := {
  problems_found : string;
  problem_count : nat;
  reliability_score : Q;
  is_reliable : bool
}.

(** The JSON body of a successful [/api/analyze-advanced] response. *)
Record Analysis := {
  success : bool;
  final_answer : string;
  analysis_confidence : Q;
  analysis_reliability_score : Q;
  validation : ValidationResult;
  fact_validation : FactResult;
  overall_is_reliable : bool
}.

Inductive Response :=
| Json (body : Analysis)
| Error (message : string) (status : nat).

Module Pipeline.
Section WithCollaborators.
Context {difflib : Difflib} {together : Together}.

(** What a computation threads: the world, and the calls issued so far. *)
Record session := { world : World; issued : list Completion }.

Definition Eff (A : Type) : Type := session -> outcome A * session.

Definition ret {A} (a : A) : Eff A := fun s => (Value a, s).

Definition raise {A} (message : string) : Eff A :=
  fun s => (Exception message, s).

Definition bind {A B} (m : Eff A) (k : A -> Eff B) : Eff B :=
  fun s =>
    match m s with
    | (Value a, s') => k a s'
    | (Exception e, s') => (Exception e, s')
    end.

(** [try: m except Exception as e: handler(e)] *)
Definition try_except {A} (m : Eff A) (handler : string -> Eff A) : Eff A :=
  fun s =>
    match m s with
    | (Value a, s') => (Value a, s')
    | (Exception e, s') => handler e s'
    end.

Notation "'let*' x := m 'in' k" := (bind m (fun x => k))
  (at level 10, x name, m at level 100, k at level 200, only parsing).

(** [together.Complete.create(...)['choices'][0]['text']] *)
Definition complete (request : Completion) : Eff string :=
  fun s =>
    let '(reply, w) := Complete_create request (world s) in
    let s' := {| world := w; issued := issued s ++ [request] |} in
    match reply with
    | Returns text => (Value text, s')
    | Raises e => (Exception e, s')
    end.

Definition primary_model : string :=
  "meta-llama/Meta-Llama-3.1-70B-Instruct-Turbo".
Definition verification_model : string :=
  "meta-llama/Meta-Llama-3.1-8B-Instruct-Turbo".

Definition prompt_templates : list Template :=
  [StrictCitation; ChainOfThought; NegativeInstruction].

Definition temperatures : list Q := [0.05; 0.25; 0.15]%Q.

(** The body of the [try] of one ensemble pass. *)
Definition ensemble_pass (document query : string) (i : nat)
           (template : Template) : Eff string :=
  match temperatures !! i with
  | None => raise "list index out of range"
  | Some t =>
      complete {| model := if i =? 0 then primary_model
                           else verification_model;
                  prompt := EnsemblePrompt template document query;
                  max_tokens := 600;
                  temperature := t;
                  top_p := Some 0.9%Q;
                  repetition_penalty := Some 1.2%Q |}
  end.

(** [for i, template in enumerate(...)]: a failed pass is skipped. *)
Fixpoint ensemble_loop (document query : string) (i : nat)
         (templates : list Template) (responses : list string)
  : Eff (list string) :=
  match templates with
  | [] => ret responses
  | template :: rest =>
      let* responses' :=
        try_except
          (let* response := ensemble_pass document query i template in
           ret (responses ++ [response]))
          (fun _ => ret responses) in
      ensemble_loop document query (S i) rest responses'
  end.

Definition ensemble_extraction (document query : string) (num_passes : Z)
  : Eff EnsembleResult :=
  let* responses :=
    ensemble_loop document query 0
                  (Py.slice_to num_passes prompt_templates) [] in
  ret (Ensemble._aggregate_ensemble_responses responses document).

Definition fact_extraction_validation (document query : string)
  : Eff FactResult :=
  try_except
    (let* extracted_facts :=
       complete {| model := primary_model;
                   prompt := FactExtractionPrompt document query;
                   max_tokens := 500;
                   temperature := 0.05%Q;
                   top_p := None;
                   repetition_penalty := None |} in
     try_except
       (let* answer :=
          complete {| model := primary_model;
                      prompt := AnswerPrompt extracted_facts query;
                      max_tokens := 400;
                      temperature := 0.1%Q;
                      top_p := None;
                      repetition_penalty := None |} in
        let validation_score := Ensemble._cross_validate answer document in
        ret {| extracted_facts := extracted_facts;
               answer := answer;
               validation_score := validation_score;
               reliable := Qlt_bool 0.7 validation_score |})
       (fun e =>
          ret {| extracted_facts := extracted_facts;
                 answer := "Error generating answer: " +:+ e;
                 validation_score := 0.0;
                 reliable := false |}))
    (fun e =>
       ret {| extracted_facts := "Error extracting facts: " +:+ e;
              answer := "Unable to process request";
              validation_score := 0.0;
              reliable := false |}).

(** The lines of the critic's output that count as problems. *)
Definition is_problem_line (l : string) : bool :=
  negb (String.eqb (Py.strip l) EmptyString)
  && negb (Py.startswith (Py.strip l) "None").

Definition problem_lines (problems : string) : list string :=
  filter (fun l => is_problem_line l = true) (Py.split_char "010" problems).

(** [max(0, 1 - n * 0.2)] *)
Definition reliability_of (n : nat) : Q :=
  let x := (1 - inject_Z (Z.of_nat n) * 0.2)%Q in
  if Qlt_bool 0 x then x else 0%Q.

Definition score_problems (problems : string) : ValidationResult :=
  let problem_lines := problem_lines problems in
  {| problems_found := problems;
     problem_count := length problem_lines;
     reliability_score := reliability_of (length problem_lines);
     is_reliable := length problem_lines <? 2 |}.

Definition adversarial_request (document query answer : string)
  : Completion :=
  {| model := verification_model;
     prompt := AdversarialPrompt document query answer;
     max_tokens := 400;
     temperature := 0.2%Q;
     top_p := None;
     repetition_penalty := None |}.

(** No [try] here: a failing call propagates to the caller. *)
Definition adversarial_validation (document query answer : string)
  : Eff ValidationResult :=
  let* problems := complete (adversarial_request document query answer) in
  ret (score_problems problems).

(** Steps 1 to 4 of [analyze_advanced], once the input is validated. *)
Definition run_stages (document query : string) : Eff Response :=
  let* ensemble_result := ensemble_extraction document query 3 in
  let* fact_result := fact_extraction_validation document query in
  let* validation :=
    adversarial_validation document query
                           (consensus_answer ensemble_result) in
  let final_answer :=
    if negb (is_reliable validation) then answer fact_result
    else consensus_answer ensemble_result in
  ret (Json
         {| success := true;
            final_answer := final_answer;
            analysis_confidence := confidence ensemble_result;
            analysis_reliability_score := reliability_score validation;
            validation := validation;
            fact_validation := fact_result;
            overall_is_reliable :=
              is_reliable validation && reliable fact_result |}).

(** The handler from the point where [request.json] has been read:
    [None] when it is the JSON value null, otherwise a JSON object with
    text values. The outer [try] turns any exception into a 500; the case
    of [request.json] itself raising is [Requests.analyze_advanced_request]. *)
Definition analyze_advanced (data : option (gmap string string))
  : Eff Response :=
  try_except
    (match data with
     | None => ret (Error "No JSON data provided" 400)
     | Some data =>
         if bool_decide (data = ∅) then
           ret (Error "No JSON data provided" 400)
         else
           let document := Py.strip (default EmptyString (data !! "document")) in
           let query := Py.strip (default EmptyString (data !! "query")) in
           if String.eqb document EmptyString || String.eqb query EmptyString
           then ret (Error "Document and query required" 400)
           else if (200000 <? Z.of_nat (String.length document))%Z
           then ret (Error "Document too large (max 200,000 characters)" 400)
           else if (1000 <? Z.of_nat (String.length query))%Z
           then ret (Error "Query too long (max 1,000 characters)" 400)
           else run_stages document query
     end)
    (fun e => ret (Error e 500)).

(** The request passes validation: the body is a non-empty object whose
    stripped document and query are non-empty and within the limits. *)
Definition accepted (data : gmap string string) (document query : string)
  : Prop :=
  data <> ∅
  /\ document = Py.strip (default EmptyString (data !! "document"))
  /\ query = Py.strip (default EmptyString (data !! "query"))
  /\ document <> EmptyString /\ query <> EmptyString
  /\ (Z.of_nat (String.length document) <= 200000)%Z
  /\ (Z.of_nat (String.length query) <= 1000)%Z.

End WithCollaborators.
End Pipeline.

(** ** Stand-ins for the collaborators, for running examples *)

(** An endpoint that plays back a list of replies, one per call, and times
    out once the list is used up. *)
Definition scripted : Together :=
  {| World := list Reply;
     Complete_create := fun _ w =>
       match w with
       | [] => (Raises "Request timed out", [])
       | reply :: rest => (reply, rest)
       end |}.

(** A similarity that only tells identical strings from different ones. *)
Definition identical_or_not : Difflib :=
  {| SequenceMatcher_ratio := fun a b => if String.eqb a b then 1%Q else 0%Q |}.

Module Samples.

Definition document : string :=
  "Paris is the capital of France. The Eiffel Tower was completed in 1889.".

Definition query : string := "When was the Eiffel Tower completed?".

Definition body : gmap string string :=
  <["document" := document]> (<["query" := query]> ∅).

Definition tower : string := "The Eiffel Tower was completed in 1889.".

(** Three ensemble replies, the two fact-extraction replies, then the
    critic's verdict. *)
Definition agreeable : list Reply :=
  [Returns tower; Returns tower; Returns tower;
   Returns ("- " +:+ tower); Returns tower; Returns "None"].

(** The same conversation, except that the critic's call fails. *)
Definition critic_down : list Reply :=
  [Returns tower; Returns tower; Returns tower;
   Returns ("- " +:+ tower); Returns tower; Raises "Request timed out"].

Definition start (replies : list Reply) : @Pipeline.session scripted :=
  @Pipeline.Build_session scripted replies [].

(** The orchestrator's run on the first conversation. *)
Definition sample_run : outcome Response * @Pipeline.session scripted :=
  Eval vm_compute in
    Pipeline.analyze_advanced (difflib := identical_or_not)
                              (together := scripted)
                              (Some body) (start agreeable).

End Samples.

(** ** Diversified retrieval: [retrieve_documents] *)

(** A match of the vector store: its id, its similarity score and its
    metadata dictionary. *)
Record Match := {
  match_id : string;
  score : Q;
  metadata : gmap string string
}.

(** One entry of the list [retrieve_documents] returns. *)
Record Retrieved := {
  doc_text : string;
  doc_source : string;
  doc_domain : string;
  doc_score : Q;
  doc_user_id : option string;
  doc_type : string
}.

(** The embedder and the index. [encode] stands for
    [get_embedder().encode(query).tolist()] and [index_query] for
    [get_pinecone_index().query(...).get("matches", [])] with its vector,
    [top_k], [filter] and [namespace] arguments; either may raise. *)
Class VectorStore := {
  encode : string -> outcome (list Q);
  index_query : list Q -> Z -> option (gmap string string) -> string
                -> outcome (list Match)
}.

Module Retriever.

(** [match["metadata"].get("source", "unknown")] *)
Definition source_of (m : Match) : string :=
  default "unknown" (metadata m !! "source").

(** The dictionary [by_source], in insertion order. *)
Fixpoint by_source_add (src : string) (m : Match)
         (d : list (string * list Match)) : list (string * list Match) :=
  match d with
  | [] => [(src, [m])]
  | (k, ms) :: rest =>
      if decide (src = k) then (k, ms ++ [m]) :: rest
      else (k, ms) :: by_source_add src m rest
  end.

Definition by_source (matches : list Match) : list (string * list Match) :=
  foldl (fun d m => by_source_add (source_of m) m d) [] matches.

(** [l.sort(key=lambda x: x["score"], reverse=True)]: stable, so matches
    of equal score keep their order. *)
Fixpoint insert_by_score (m : Match) (l : list Match) : list Match :=
  match l with
  | [] => [m]
  | y :: rest =>
      if Qle_bool (score y) (score m) then m :: y :: rest
      else y :: insert_by_score m rest
  end.

Definition sort_by_score (l : list Match) : list Match :=
  foldr insert_by_score [] l.

(** [chunks_per_source] and [remaining_slots] for a non-empty grouping. *)
Definition chunks_per_source (top_k : Z)
           (by_source : list (string * list Match)) : Z :=
  (1 `max` (top_k `div` Z.of_nat (length by_source)))%Z.

Definition remaining_slots (top_k : Z)
           (by_source : list (string * list Match)) : Z :=
  (top_k - chunks_per_source top_k by_source * Z.of_nat (length by_source))%Z.

(** First pass: the leading matches of every source. *)
Definition first_pass (top_k : Z) (by_source : list (string * list Match))
  : list Match :=
  concat ((fun '(_, source_matches) =>
             Py.slice_to (chunks_per_source top_k by_source) source_matches)
            <$> by_source).

(** What the first pass left behind, over all sources. *)
Definition all_remaining (top_k : Z) (by_source : list (string * list Match))
  : list Match :=
  concat ((fun '(_, source_matches) =>
             Py.slice_from (chunks_per_source top_k by_source) source_matches)
            <$> by_source).

(** [diverse_matches] as it stands before the final sort. *)
Definition diverse_matches (top_k : Z) (matches : list Match) : list Match :=
  let by_source := by_source matches in
  if 0 <? length by_source then
    first_pass top_k by_source
    ++ (if (0 <? remaining_slots top_k by_source)%Z
        then Py.slice_to (remaining_slots top_k by_source)
                         (sort_by_score (all_remaining top_k by_source))
        else [])
  else [].

Definition final_matches (top_k : Z) (matches : list Match) : list Match :=
  Py.slice_to top_k (sort_by_score (diverse_matches top_k matches)).

(** One element of the returned list; a missing ["text"], ["source"] or
    ["domain"] is a [KeyError]. *)
Definition to_retrieved (m : Match) : option Retrieved :=
  match metadata m !! "text", metadata m !! "source", metadata m !! "domain"
  with
  | Some text, Some source, Some domain =>
      Some {| doc_text := text;
              doc_source := source;
              doc_domain := domain;
              doc_score := score m;
              doc_user_id := metadata m !! "user_id";
              doc_type := default "document" (metadata m !! "type") |}
  | _, _, _ => None
  end.

(** [if domain:] and [if user_id:] hold for a non-empty text. *)
Definition given (value : option string) : option string :=
  match value with
  | Some (String c rest) => Some (String c rest)
  | _ => None
  end.

Definition with_entry (key : string) (value : option string)
           (d : gmap string string) : gmap string string :=
  match given value with
  | Some v => <[key := v]> d
  | None => d
  end.

(** [filter_dict if filter_dict else None] *)
Definition or_none (d : gmap string string) : option (gmap string string) :=
  if bool_decide (d = ∅) then None else Some d.

Section WithVectorStore.
Context {store : VectorStore}.

(** The candidates on which the diversification works: [matches] as it
    stands after the merge, the sort and the cut. Any exception on the way
    is caught by the [except] of the function. *)
Definition candidates (query : string) (domain : option string) (top_k : Z)
           (user_id : option string) (include_reports : bool)
  : outcome (list Match) :=
  match encode query with
  | Exception e => Exception e
  | Value query_embedding =>
      let filter_dict := with_entry "user_id" user_id
                                    (with_entry "domain" domain ∅) in
      let retrieval_k := if (top_k <? 20)%Z then (top_k * 2)%Z else top_k in
      match index_query query_embedding retrieval_k (or_none filter_dict)
                        EmptyString with
      | Exception e => Exception e
      | Value results_default =>
          let with_reports :=
            if include_reports then
              match index_query query_embedding (retrieval_k `div` 2)%Z
                                (or_none (with_entry "domain" domain ∅))
                                "reports" with
              | Exception e => Exception e
              | Value results_reports =>
                  Value (results_default ++ results_reports)
              end
            else Value results_default in
          match with_reports with
          | Exception e => Exception e
          | Value all_matches =>
              Value (Py.slice_to (retrieval_k * 2)
                                 (sort_by_score all_matches))
          end
      end
  end.

Definition retrieve_documents (query : string) (domain : option string)
           (top_k : Z) (user_id : option string) (include_reports : bool)
  : list Retrieved :=
  match candidates query domain top_k user_id include_reports with
  | Exception _ => []
  | Value matches =>
      default [] (mapM to_retrieved (final_matches top_k matches))
  end.

End WithVectorStore.

(** Every group is non-empty and holds matches of its own source only,
    all of them among [matches]. *)
Definition grouped (matches : list Match) (d : list (string * list Match))
  : Prop :=
  Forall (fun p => p.2 <> []
                   /\ Forall (fun m => source_of m = p.1 /\ m ∈ matches) p.2)
         d.

(** The sources that occur in a list of matches, each once. *)
Definition sources_of (l : list Match) : list string :=
  remove_dups (source_of <$> l).

End Retriever.

Module Candidates.

Definition candidate (id : string) (s : Q) (src : string) : Match :=
  {| match_id := id;
     score := s;
     metadata := <["text" := "Chunk " +:+ id]>
                   (<["source" := src]> (<["domain" := "travel"]> ∅)) |}.

(** Six candidates from three reports. *)
Definition six : list Match :=
  [candidate "a1" 0.9 "report_a.pdf"; candidate "b1" 0.8 "report_b.pdf";
   candidate "c1" 0.7 "report_c.pdf"; candidate "a2" 0.6 "report_a.pdf";
   candidate "b2" 0.5 "report_b.pdf"; candidate "a3" 0.4 "report_a.pdf"].

(** A store whose default namespace holds the six candidates, best first,
    and answers a query with as many of them as it is asked for. *)
Definition shelf : VectorStore :=
  {| encode := fun _ => Value [0.1; 0.2; 0.3]%Q;
     index_query := fun _ top_k _ namespace =>
       if String.eqb namespace EmptyString
       then Value (take (Z.to_nat top_k) six)
       else Value [] |}.

End Candidates.

(** ** Vocabulary of the further properties of retrieval *)

Module Order.

(** [a] may come before [b] in a list sorted by descending score. *)
Definition by_score (a b : Match) : Prop := (score b <= score a)%Q.

Definition by_doc_score (a b : Retrieved) : Prop :=
  (doc_score b <= doc_score a)%Q.

End Order.

Module Torn.

(** A match stored without its ["text"]. *)
Definition textless : Match :=
  {| match_id := "x1";
     score := 0.95;
     metadata := <["source" := "notes.txt"]> (<["domain" := "travel"]> ∅) |}.

(** The shelf of [Candidates], with the textless match on top. *)
Definition torn_shelf : VectorStore :=
  {| encode := fun _ => Value [0.1; 0.2; 0.3]%Q;
     index_query := fun _ top_k _ namespace =>
       if String.eqb namespace EmptyString
       then Value (take (Z.to_nat top_k) (textless :: Candidates.six))
       else Value [] |}.

End Torn.

(** ** Vocabulary of the further properties of the chunker *)

Module Layout.
Import Chunker.

(** The sentence buffers that come of cutting the sentences into the
    consecutive runs [parts]: every run is prefixed with what
    [keep_overlap] keeps of the buffer before it, [seed] for the first. *)
Fixpoint assemble_from (overlap : Z) (seed : list string)
         (parts : list (list string)) : list (list string) :=
  match parts with
  | [] => []
  | part :: rest =>
      (seed ++ part)
        :: assemble_from overlap (keep_overlap overlap (seed ++ part)) rest
  end.

Definition assemble (overlap : Z) (parts : list (list string))
  : list (list string) :=
  assemble_from overlap [] parts.

(** The overlap that the buffer after [parts] starts with. *)
Fixpoint seed_after (overlap : Z) (seed : list string)
         (parts : list (list string)) : list string :=
  match parts with
  | [] => seed
  | part :: rest =>
      seed_after overlap (keep_overlap overlap (seed ++ part)) rest
  end.

Section WithHashlib.
Context {hashlib : Hashlib}.

(** What the loop maintains once it has read the sentences [seen]. *)
Record covers (overlap : Z) (st : loop_state) (seen : list string)
       (parts : list (list string)) (fresh : list string) : Prop := {
  covers_text :
    chunk_text <$> chunks st = Py.join " " <$> assemble overlap parts;
  covers_current : current_chunk st = seed_after overlap [] parts ++ fresh;
  covers_seen : concat parts ++ fresh = seen;
  covers_parts : Forall (fun part => part <> []) parts;
  covers_fresh : current_chunk st = [] \/ fresh <> []
}.

End WithHashlib.
End Layout.

(** ** The endpoint [/api/validate-answer] *)

Inductive ValidateResponse :=
| Validated (validation : ValidationResult)
| ValidateError (message : string) (status : nat).

Module Endpoints.
Import Pipeline.
Section WithCollaborators.
Context {together : Together}.

(** The handler reads the three texts without checking them; a missing
    body makes [data.get] raise, which the [except] turns into a 500. *)
Definition validate_answer (data : option (gmap string string))
  : Eff ValidateResponse :=
  try_except
    (match data with
     | None => raise "'NoneType' object has no attribute 'get'"
     | Some data =>
         let document := default EmptyString (data !! "document") in
         let query := default EmptyString (data !! "query") in
         let answer := default EmptyString (data !! "answer") in
         bind (adversarial_validation document query answer)
              (fun validation => ret (Validated validation))
     end)
    (fun e => ret (ValidateError e 500)).

End WithCollaborators.
End Endpoints.

Module Requests.
Import Pipeline.
Section WithCollaborators.
Context {difflib : Difflib} {together : Together}.

(** [analyze_advanced] from its first statement, [data = request.json],
    which is inside the [try]: reading the body may itself raise (a
    missing body, or one that is not JSON), and the handler's [except]
    answers that with status 500; otherwise it yields [None] or the JSON
    object. *)
Definition analyze_advanced_request
           (request_json : outcome (option (gmap string string)))
  : Eff Response :=
  match request_json with
  | Exception e => ret (Error e 500)
  | Value data => analyze_advanced data
  end.

End WithCollaborators.
End Requests.

(** An endpoint that cannot be reached: every call raises. *)
Module Outage.

Definition unreachable : Together :=
  {| World := unit;
     Complete_create := fun _ w => (Raises "Connection refused", w) |}.

Definition offline : @Pipeline.session unreachable :=
  @Pipeline.Build_session unreachable tt [].

(** A body whose query is blank. *)
Definition blank_query : gmap string string :=
  <["document" := Samples.document]> (<["query" := "  "]> ∅).

End Outage.

(** ** Query enhancement, ingestion and the user's documents ([app2.py]) *)

Module Web.
Section WithDocs.

(** A retrieved document is a dictionary; [get_text] stands for
    [doc.get('text')]. *)
Context {Doc : Type} (get_text : Doc -> option string).

(** [s[:n]] for a text [s] and a count [n]. *)
Definition first_chars (n : nat) (s : string) : string :=
  String.substring 0 n s.

(** The loop over [doc_context[:2]]: the non-empty 200-character heads. *)
Definition context_snippets (doc_context : list Doc) : list string :=
  filter (fun text => text <> EmptyString)
         ((fun doc => first_chars 200 (default EmptyString (get_text doc)))
            <$> Py.slice_to 2 doc_context).

Definition create_enhanced_search_query (original_query : string)
           (doc_context : list Doc) : string :=
  match doc_context with
  | [] => original_query
  | _ =>
      match context_snippets doc_context with
      | [] => original_query
      | snippets =>
          original_query +:+ " "
            +:+ first_chars 150 (Py.join " " snippets)
      end
  end.

End WithDocs.
End Web.

Module Ingest.

(** [range(0, stop, step)] for a positive step. *)
Definition range_from_zero (stop step : nat) : list nat :=
  (fun k => k * step) <$> seq 0 ((stop + step - 1) / step).

Definition batch_size : nat := 100.

(** The arguments of the successive [idx.upsert] calls of
    [ingest_document]: [vectors[i:i + batch_size]] for every [i] of the
    range. *)
Definition upsert_batches {A} (vectors : list A) : list (list A) :=
  (fun i => take batch_size (drop i vectors))
    <$> range_from_zero (length vectors) batch_size.

(** What [batch_upload] needs of a file and of [ingest_document]: the
    name, and the outcome of reading and ingesting the file, which
    changes the index. *)
Record IngestResult := {
  chunks_created : nat;
  processing_time : Q;
  file_name : string;
  ingest_user_id : option string
}.

Class Ingestion := {
  Index : Type;
  File : Type;
  filename : File -> string;
  ingest_document : File -> string -> option string -> Index
                    -> outcome IngestResult * Index
}.

Inductive UploadEntry :=
| Succeeded (file : string) (result : IngestResult)
| Failed (file error : string).

Definition is_success (entry : UploadEntry) : bool :=
  match entry with
  | Succeeded _ _ => true
  | Failed _ _ => false
  end.

Definition is_failure (entry : UploadEntry) : bool :=
  match entry with
  | Succeeded _ _ => false
  | Failed _ _ => true
  end.

Definition entry_file (entry : UploadEntry) : string :=
  match entry with
  | Succeeded file _ => file
  | Failed file _ => file
  end.

Definition entry_chunks (entry : UploadEntry) : nat :=
  match entry with
  | Succeeded _ result => chunks_created result
  | Failed _ _ => 0
  end.

Record BatchReport := {
  total : nat;
  successful : nat;
  failed : nat;
  total_chunks : nat;
  report_user_id : option string;
  results : list UploadEntry
}.

Section WithIngestion.
Context {ingestion : Ingestion}.

(** [for file in files]: a file that fails is recorded and the loop goes
    on. *)
Fixpoint upload_loop (files : list File) (domain : string)
         (user_id : option string) (results : list UploadEntry)
         (total_chunks : nat) (index : Index)
  : list UploadEntry * nat * Index :=
  match files with
  | [] => (results, total_chunks, index)
  | file :: rest =>
      match ingest_document file domain user_id index with
      | (Value result, index') =>
          upload_loop rest domain user_id
                      (results ++ [Succeeded (filename file) result])
                      (total_chunks + chunks_created result) index'
      | (Exception e, index') =>
          upload_loop rest domain user_id
                      (results ++ [Failed (filename file) e])
                      total_chunks index'
      end
  end.

Definition batch_upload (files : list File) (domain : string)
           (user_id : option string) (index : Index)
  : BatchReport * Index :=
  let '(results, total_chunks, index') :=
    upload_loop files domain user_id [] 0 index in
  ({| total := length files;
      successful := length (filter (fun r => is_success r = true) results);
      failed := length (filter (fun r => is_failure r = true) results);
      total_chunks := total_chunks;
      report_user_id := user_id;
      results := results |}, index').

End WithIngestion.
End Ingest.

Module Library.

(** One entry of the ["documents"] list of [get_user_documents]. *)
Record UserDocument := {
  doc_filename : string;
  doc_chunks : nat;
  doc_timestamp : string
}.

(** [metadata.get("source", "Unknown")] and
    [metadata.get("timestamp", "N/A")] *)
Definition source_label (m : Match) : string :=
  default "Unknown" (metadata m !! "source").

Definition timestamp_label (m : Match) : string :=
  default "N/A" (metadata m !! "timestamp").

(** [documents[source]["chunks"] += 1] on the dictionary in insertion
    order. *)
Definition count_chunk (source : string)
           (documents : list (string * UserDocument))
  : list (string * UserDocument) :=
  (fun '(key, document) =>
     if decide (key = source)
     then (key, {| doc_filename := doc_filename document;
                   doc_chunks := doc_chunks document + 1;
                   doc_timestamp := doc_timestamp document |})
     else (key, document)) <$> documents.

(** The body of [for match in results.get("matches", [])]. *)
Definition documents_step (documents : list (string * UserDocument))
           (m : Match) : list (string * UserDocument) :=
  let source := source_label m in
  let documents :=
    if decide (source ∈ documents.*1) then documents
    else documents ++ [(source, {| doc_filename := source;
                                   doc_chunks := 0;
                                   doc_timestamp := timestamp_label m |})] in
  count_chunk source documents.

Definition documents_of (matches : list Match) : list UserDocument :=
  (foldl documents_step [] matches).*2.

(** The filter of the query: the user's own documents. *)
Definition own_documents (user_id : string) : gmap string string :=
  <["user_id" := user_id]> (<["type" := "document"]> ∅).

(** The handler does not call [get_embedder] and [get_pinecone_index]: it
    reads the module variables [embedder] and [index], which are [None]
    until one of the two has run for another request. *)
Record Globals := {
  embedder_loaded : bool;
  index_loaded : bool
}.

Section WithVectorStore.
Context {store : VectorStore}.

(** An exception stands for the [HTTPException] with status 500 that the
    handler raises with the message as its detail. *)
Definition get_user_documents (globals : Globals) (user_id : string)
  : outcome (string * list UserDocument) :=
  if negb (embedder_loaded globals)
  then Exception "'NoneType' object has no attribute 'encode'"
  else
    match encode "document" with
    | Exception e => Exception e
    | Value query_embedding =>
        if negb (index_loaded globals)
        then Exception "'NoneType' object has no attribute 'query'"
        else
          match index_query query_embedding 100
                            (Some (own_documents user_id)) EmptyString with
          | Exception e => Exception e
          | Value matches => Value (user_id, documents_of matches)
          end
    end.

End WithVectorStore.

(** The globals of a process that has served no request yet, and of one
    that has loaded both. *)
Definition fresh : Globals :=
  {| embedder_loaded := false; index_loaded := false |}.

Definition loaded : Globals :=
  {| embedder_loaded := true; index_loaded := true |}.

(** The first match of [source] in [matches]. *)
Definition first_of (source : string) (matches : list Match) (m : Match)
  : Prop :=
  exists before after,
    matches = before ++ m :: after
    /\ source_label m = source
    /\ source ∉ source_label <$> before.

(** What a listed document says about the matches. *)
Definition describes (matches : list Match) (document : UserDocument)
  : Prop :=
  doc_chunks document
  = Ensemble.occurrences (doc_filename document) (source_label <$> matches)
  /\ exists m, first_of (doc_filename document) matches m
               /\ doc_timestamp document = timestamp_label m.

End Library.

(** ** The scoring phase of [semantic_rag_with_reranking] *)

Module Scoring.

(** [s.count(sub)]: the occurrences of [sub] in [s] that do not overlap,
    found from left to right; [skip] characters of a match are still to
    be passed over. *)
Fixpoint count_go (sub : string) (skip : nat) (s : string) : nat :=
  match s with
  | EmptyString => 0
  | String c s' =>
      match skip with
      | S k => count_go sub k s'
      | 0 =>
          if String.prefix sub s
          then S (count_go sub (String.length sub - 1) s')
          else count_go sub 0 s'
      end
  end.

Definition count (s sub : string) : nat :=
  match sub with
  | EmptyString => S (String.length s)
  | _ => count_go sub 0 s
  end.

(** [a / b] on two lengths: a [ZeroDivisionError] for [b = 0]. *)
Definition divide (a b : nat) : outcome Q :=
  match b with
  | 0 => Exception "division by zero"
  | _ => Value (inject_Z (Z.of_nat a) / inject_Z (Z.of_nat b))%Q
  end.

Section WithCollaborators.
Context {hashlib : Hashlib} {difflib : Difflib}.

(** The body of [for chunk in chunks], up to [combined_score]. *)
Definition combined_score (query_lower : string) (query_terms : gset string)
           (chunk : Chunk) : outcome Q :=
  let chunk_lower := Py.lower (chunk_text chunk) in
  let chunk_terms : gset string := list_to_set (Py.split chunk_lower) in
  match divide (size (query_terms ∩ chunk_terms)) (size query_terms) with
  | Exception e => Exception e
  | Value term_overlap =>
      let similarity := SequenceMatcher_ratio query_lower chunk_lower in
      match divide (sum_list (count chunk_lower <$> elements query_terms))
                   (length (Py.split chunk_lower)) with
      | Exception e => Exception e
      | Value keyword_density =>
          Value (term_overlap * 0.4 + similarity * 0.3
                 + keyword_density * 0.3)%Q
      end
  end.

Fixpoint score_loop (query_lower : string) (query_terms : gset string)
         (chunks : list Chunk) (scored_chunks : list (Chunk * Q))
  : outcome (list (Chunk * Q)) :=
  match chunks with
  | [] => Value scored_chunks
  | chunk :: rest =>
      match combined_score query_lower query_terms chunk with
      | Exception e => Exception e
      | Value score =>
          score_loop query_lower query_terms rest
                     (scored_chunks ++ [(chunk, score)])
      end
  end.

(** [scored_chunks] as it stands after the loop; nothing in the function
    catches an exception of the loop. *)
Definition scored_chunks (document query : string)
  : outcome (list (Chunk * Q)) :=
  let chunks := Chunker.chunk_document_smart document 800 100 in
  let query_lower := Py.lower query in
  let query_terms : gset string := list_to_set (Py.split query_lower) in
  score_loop query_lower query_terms chunks [].

End WithCollaborators.
End Scoring.

(** A conversation in which the fact extraction fails and the critic
    objects twice. *)
Module Degraded.

Definition objections : string :=
  String.concat (String "010" EmptyString)
                ["- The year is not in the document";
                 "- The tower is not named"].

Definition replies : list Reply :=
  [Returns Samples.tower; Returns Samples.tower; Returns Samples.tower;
   Raises "Request timed out"; Returns objections].

(** The ensemble's run at the start of that conversation. *)
Definition ensemble_run : outcome EnsembleResult * @Pipeline.session scripted :=
  Eval vm_compute in
    Pipeline.ensemble_extraction (difflib := identical_or_not)
                                 (together := scripted)
                                 Samples.document Samples.query 3
                                 (Samples.start replies).

End Degraded.

(** ** Facts about the text primitives *)

Section PyFacts.

Lemma push_word_app w ws ws' :
  Py.push_word w (ws ++ ws') = Py.push_word w ws ++ ws'.
Proof. by destruct w. Qed.

Lemma app_empty s : EmptyString +:+ s = s.
Proof. reflexivity. Qed.

Lemma app_String c a s : String c a +:+ s = String c (a +:+ s).
Proof. reflexivity. Qed.

Lemma split_go_app_sep a s ws :
  Py.split_go s = (EmptyString, ws) ->
  Py.split_go (a +:+ s) = ((Py.split_go a).1, (Py.split_go a).2 ++ ws).
Proof.
  intros Hs. induction a as [|c a IH].
  - by rewrite app_empty, Hs.
  - rewrite app_String. simpl. rewrite IH.
    destruct (Py.split_go a) as [w ws0]; simpl.
    destruct (Py.isspace c); simpl; [|done].
    by rewrite push_word_app.
Qed.

(** Joining with one space and splitting again concatenates the words. *)
Lemma split_app_space a b :
  Py.split (a +:+ " " +:+ b) = Py.split a ++ Py.split b.
Proof.
  unfold Py.split at 1.
  rewrite (split_go_app_sep a (" " +:+ b) (Py.split b)).
  - unfold Py.split at 2.
    destruct (Py.split_go a) as [w ws]; simpl. by rewrite push_word_app.
  - rewrite app_String, app_empty. simpl.
    unfold Py.split. by destruct (Py.split_go b).
Qed.

Lemma join_cons_cons sep x y l :
  Py.join sep (x :: y :: l) = x +:+ sep +:+ Py.join sep (y :: l).
Proof. done. Qed.

Lemma split_join l :
  Py.split (Py.join " " l) = concat (Py.split <$> l).
Proof.
  induction l as [|x [|y l] IH].
  - done.
  - simpl. by rewrite app_nil_r.
  - rewrite join_cons_cons, split_app_space, IH. done.
Qed.

Lemma length_substring_le s n m :
  String.length (String.substring n m s) <= m.
Proof.
  revert n m. induction s as [|c s IH]; intros [|n] [|m]; simpl;
    try lia; try apply IH.
  specialize (IH 0 m). lia.
Qed.

End PyFacts.

(** ** The chunker *)

Module ChunkerFacts.
Import Chunker.
Section WithHashlib.
Context {hashlib : Hashlib}.

Lemma total_words_cons s l :
  total_words (s :: l) = words_of s + total_words l.
Proof. done. Qed.

Lemma total_words_singleton s : total_words [s] = words_of s.
Proof. unfold total_words. simpl. lia. Qed.

Lemma total_words_app l1 l2 :
  total_words (l1 ++ l2) = total_words l1 + total_words l2.
Proof.
  unfold total_words. rewrite fmap_app. induction (words_of <$> l1); simpl; lia.
Qed.

(** The [word_count] the chunker records is the number of words of the
    joined text. *)
Lemma words_of_join buffer :
  words_of (Py.join " " buffer) = total_words buffer.
Proof.
  unfold words_of. rewrite split_join.
  induction buffer as [|s l IH]; [done|].
  rewrite fmap_cons, total_words_cons. simpl.
  rewrite length_app, IH. done.
Qed.

Lemma overlap_loop_spec overlap reversed acc :
  exists taken,
    overlap_loop overlap reversed acc (total_words acc) = taken ++ acc
    /\ reverse taken `prefix_of` reversed
    /\ (taken <> [] ->
        (Z.of_nat (total_words (tail (taken ++ acc))) < overlap)%Z)
    /\ (reverse taken <> reversed ->
        (overlap <= Z.of_nat (total_words (taken ++ acc)))%Z).
Proof.
  revert acc. induction reversed as [|s rest IH]; intros acc; simpl.
  - exists []. repeat split; [apply prefix_nil|done..].
  - destruct (Z.ltb_spec (Z.of_nat (total_words acc)) overlap) as [Hlt|Hge].
    + replace (total_words acc + words_of s) with (total_words (s :: acc))
        by (rewrite total_words_cons; lia).
      destruct (IH (s :: acc)) as (taken & Hres & Hpre & Htail & Hstop).
      exists (taken ++ [s]). rewrite <- app_assoc. simpl.
      repeat split; [done| | |].
      * rewrite reverse_app. simpl. by apply prefix_cons.
      * intros _. destruct taken as [|t taken]; [done|].
        apply Htail. done.
      * intros Hne. apply Hstop. intros Heq. apply Hne.
        rewrite reverse_app. simpl. by rewrite Heq.
    + exists []. repeat split; [apply prefix_nil|done|].
      intros _. simpl. lia.
Qed.

Lemma keep_overlap_spec overlap buffer :
  keep_overlap overlap buffer `suffix_of` buffer
  /\ (keep_overlap overlap buffer <> [] ->
      (Z.of_nat (total_words (tail (keep_overlap overlap buffer)))
       < overlap)%Z)
  /\ (keep_overlap overlap buffer <> buffer ->
      (overlap <= Z.of_nat (total_words (keep_overlap overlap buffer)))%Z).
Proof.
  unfold keep_overlap.
  destruct (overlap_loop_spec overlap (reverse buffer) [])
    as (taken & Hres & Hpre & Htail & Hstop).
  change (total_words []) with 0 in Hres. rewrite Hres, app_nil_r in *.
  repeat split.
  - apply suffix_prefix_reverse. done.
  - done.
  - intros Hne. apply Hstop. intros Heq. apply Hne.
    by apply (inj reverse).
Qed.

Lemma keep_overlap_nil overlap : keep_overlap overlap [] = [].
Proof. done. Qed.

Lemma carried_app overlap buffers extra k :
  k <= length buffers ->
  carried overlap (buffers ++ extra) k = carried overlap buffers k.
Proof.
  intros Hk. destruct k as [|j]; [done|]. simpl.
  rewrite lookup_app_l by lia. done.
Qed.

Lemma well_shaped_app chunk_size overlap buffers extra k buffer :
  k <= length buffers ->
  well_shaped chunk_size overlap buffers k buffer ->
  well_shaped chunk_size overlap (buffers ++ extra) k buffer.
Proof.
  intros Hk [Hle|[s Hs]]; [by left|right].
  exists s. by rewrite carried_app.
Qed.

Lemma inv_initial chunk_size overlap all :
  inv chunk_size overlap all initial [].
Proof. by split. Qed.

Lemma chunk_body_inv chunk_size overlap all st buffers i sentence :
  inv chunk_size overlap all st buffers ->
  sentence ∈ all ->
  exists buffers',
    inv chunk_size overlap all
        (chunk_body chunk_size overlap st i sentence) buffers'.
Proof.
  intros [Htext Hcount Hlen Hshape Hfirst Hcur Hmem Hmemc] Hin.
  unfold chunk_body. destruct (closes chunk_size st sentence) eqn:Hcl.
  - apply andb_true_iff in Hcl as [_ Hne%bool_decide_eq_true].
    exists (buffers ++ [current_chunk st]). split; simpl.
    + by rewrite !fmap_app, Htext.
    + rewrite !fmap_app, Hcount. simpl. by rewrite Hlen.
    + done.
    + intros k b Hk. apply lookup_app_Some in Hk as [Hk|[Hge Hk]].
      * apply well_shaped_app; [|by apply Hshape].
        apply lookup_lt_Some in Hk. lia.
      * apply list_lookup_singleton_Some in Hk as [Hk <-].
        replace k with (length buffers) by lia.
        apply well_shaped_app; [lia|by apply Hcur].
    + intros Heq. by apply app_eq_nil in Heq as [_ ?].
    + intros _. right. exists sentence.
      rewrite length_app. simpl.
      replace (length buffers + 1) with (S (length buffers)) by lia.
      simpl. rewrite list_lookup_middle by done. done.
    + apply Forall_app. split; [done|]. by apply Forall_singleton.
    + apply Forall_app. split; [|by apply Forall_singleton].
      destruct (keep_overlap_spec overlap (current_chunk st)) as [[k Hk] _].
      rewrite Hk in Hmemc. by apply Forall_app in Hmemc as [_ ?].
  - exists buffers. split; simpl; try done.
    + by rewrite total_words_app, total_words_singleton, Hlen.
    + intros Heq. by apply app_eq_nil in Heq as [_ ?].
    + intros _. destruct (current_chunk st) as [|s0 l] eqn:Hc.
      * rewrite (Hfirst eq_refl). right. by exists sentence.
      * left. apply andb_false_iff in Hcl as [Hcl|Hcl].
        -- apply Z.ltb_ge in Hcl.
           rewrite total_words_app, total_words_singleton, <- Hlen. lia.
        -- apply bool_decide_eq_false in Hcl. exfalso. apply Hcl.
           by rewrite Hc.
    + apply Forall_app. split; [done|]. by apply Forall_singleton.
Qed.

Lemma chunk_loop_inv chunk_size overlap all sentences st buffers i :
  inv chunk_size overlap all st buffers ->
  Forall (fun s => s ∈ all) sentences ->
  exists buffers',
    inv chunk_size overlap all
        (chunk_loop chunk_size overlap st i sentences) buffers'.
Proof.
  revert st buffers i.
  induction sentences as [|s rest IH]; intros st buffers i Hinv Hall.
  - by exists buffers.
  - apply Forall_cons in Hall as [Hs Hrest]. simpl.
    destruct (chunk_body_inv _ _ _ _ _ i s Hinv Hs) as [buffers' Hinv'].
    by apply (IH _ buffers').
Qed.

(** C4 (amended). When the loop body closes the running chunk it seeds
    the next buffer with [keep_overlap] of the closed buffer followed by
    the triggering sentence. The kept sentences are a suffix of the
    closed buffer, taken from the end while the words taken so far are
    fewer than [overlap]: without its earliest sentence the suffix has
    fewer than [overlap] words, and unless it is the whole closed buffer
    it has at least [overlap] words. *)
Theorem seeded_overlap_reaches_budget chunk_size overlap st i sentence :
  closes chunk_size st sentence = true ->
  let st' := chunk_body chunk_size overlap st i sentence in
  let seeded := keep_overlap overlap (current_chunk st) in
  current_chunk st' = seeded ++ [sentence]
  /\ seeded `suffix_of` current_chunk st
  /\ (seeded <> [] ->
      (Z.of_nat (total_words (tail seeded)) < overlap)%Z)
  /\ (seeded <> current_chunk st ->
      (overlap <= Z.of_nat (total_words seeded))%Z).
Proof.
  intros Hcl st' seeded. subst st'. unfold chunk_body. rewrite Hcl. simpl.
  split; [done|]. apply keep_overlap_spec.
Qed.

(** C6 (amended). The chunks of a text are the joins of sentence buffers
    drawn from the text's sentences; each chunk records the word count of
    its text; and every buffer either has at most [chunk_size] words or
    consists of the sentences inherited from the chunk before it (none
    for the first chunk) followed by exactly one new sentence. *)
Theorem chunk_words_bounded_or_seeded text chunk_size overlap :
  let produced := chunk_document_smart text chunk_size overlap in
  exists buffers : list (list string),
    chunk_text <$> produced = Py.join " " <$> buffers
    /\ word_count <$> produced = total_words <$> buffers
    /\ Forall (fun c => word_count c = words_of (chunk_text c)) produced
    /\ Forall (Forall (fun s => s ∈ Py.re_split_sentences text)) buffers
    /\ forall k buffer,
        buffers !! k = Some buffer ->
        well_shaped chunk_size overlap buffers k buffer.
Proof.
  intros produced. subst produced. unfold chunk_document_smart.
  set (all := Py.re_split_sentences text).
  destruct (chunk_loop_inv chunk_size overlap all all initial [] 0)
    as [buffers Hinv].
  { apply inv_initial. }
  { by apply Forall_forall. }
  set (st := chunk_loop chunk_size overlap initial 0 all) in *.
  destruct Hinv as [Htext Hcount Hlen Hshape Hfirst Hcur Hmem Hmemc].
  assert (Hwc : forall cs bs,
             chunk_text <$> cs = Py.join " " <$> bs ->
             word_count <$> cs = total_words <$> bs ->
             Forall (fun c => word_count c = words_of (chunk_text c)) cs).
  { induction cs as [|c cs IH]; intros [|b bs] Ht Hc; try done.
    injection Ht as Ht1 Ht2. injection Hc as Hc1 Hc2.
    constructor; [|by eapply IH].
    by rewrite Hc1, Ht1, words_of_join. }
  unfold flush. destruct (current_chunk st) as [|s0 l] eqn:Hc.
  - exists buffers. repeat split; try done. by eapply Hwc.
  - exists (buffers ++ [s0 :: l]).
    assert (Ht : chunk_text <$> chunks st ++
                   [make_chunk (s0 :: l) (current_length st)
                               (length (chunks st), length all)]
                 = Py.join " " <$> buffers ++ [s0 :: l]).
    { by rewrite !fmap_app, Htext. }
    assert (Hn : word_count <$> chunks st ++
                   [make_chunk (s0 :: l) (current_length st)
                               (length (chunks st), length all)]
                 = total_words <$> buffers ++ [s0 :: l]).
    { rewrite !fmap_app, Hcount. simpl. by rewrite Hlen. }
    repeat split; try done.
    + by eapply Hwc.
    + apply Forall_app. split; [done|]. by apply Forall_singleton.
    + intros k b Hk. apply lookup_app_Some in Hk as [Hk|[Hge Hk]].
      * apply well_shaped_app; [|by apply Hshape].
        apply lookup_lt_Some in Hk. lia.
      * apply list_lookup_singleton_Some in Hk as [Hk <-].
        replace k with (length buffers) by lia.
        apply well_shaped_app; [lia|by apply Hcur].
Qed.

(** C9. Two runs of the chunker on the same text and parameters give the
    same sequence of chunk ids, and the id of every chunk is a function
    of the chunk's text alone: the first eight characters of the hex
    digest of the text. *)
Theorem chunk_ids_deterministic text chunk_size overlap :
  let first_run := chunk_document_smart text chunk_size overlap in
  let second_run := chunk_document_smart text chunk_size overlap in
  chunk_id <$> first_run = chunk_id <$> second_run
  /\ chunk_id <$> first_run = (fun c => fingerprint (chunk_text c)) <$> first_run
  /\ Forall (fun c => String.length (chunk_id c) <= 8) first_run.
Proof.
  intros first_run second_run. split; [done|].
  assert (Hloop : forall sentences st i,
             Forall (fun c => chunk_id c = fingerprint (chunk_text c))
                    (chunks st) ->
             Forall (fun c => chunk_id c = fingerprint (chunk_text c))
                    (chunks (chunk_loop chunk_size overlap st i sentences))).
  { induction sentences as [|s rest IH]; intros st i Hst; [done|].
    simpl. apply IH. unfold chunk_body.
    destruct (closes chunk_size st s); simpl; [|done].
    apply Forall_app. split; [done|]. by apply Forall_singleton. }
  assert (Hall : Forall (fun c => chunk_id c = fingerprint (chunk_text c))
                        first_run).
  { subst first_run. unfold chunk_document_smart, flush.
    specialize (Hloop (Py.re_split_sentences text) initial 0
                      (Forall_nil_2 _)).
    destruct (current_chunk _); [done|].
    apply Forall_app. split; [done|]. by apply Forall_singleton. }
  split.
  - induction Hall as [|c cs Hc _ IH]; [done|].
    rewrite !fmap_cons. by rewrite Hc, IH.
  - eapply Forall_impl; [exact Hall|]. intros c ->. unfold fingerprint.
    apply length_substring_le.
Qed.

End WithHashlib.

(** The text ["a b c. d e f."] chunked with [chunk_size = 4] and
    [overlap = 1]: the state of the loop after its first sentence. *)
Lemma after_first_sentence :
  chunk_loop (hashlib := hashlib_md5) 4 1 initial 0 ["a b c."]
  = {| chunks := []; current_chunk := ["a b c."]; current_length := 3 |}.
Proof. reflexivity. Qed.

Lemma seeded_overlap_witness :
  let st := chunk_loop (hashlib := hashlib_md5) 4 1 initial 0 ["a b c."] in
  let st' := chunk_body (hashlib := hashlib_md5) 4 1 st 1 "d e f." in
  let seeded := keep_overlap 1 (current_chunk st) in
  closes 4 st "d e f." = true
  /\ current_chunk st' = seeded ++ ["d e f."]
  /\ seeded `suffix_of` current_chunk st
  /\ (seeded <> [] -> (Z.of_nat (total_words (tail seeded)) < 1)%Z)
  /\ (seeded <> current_chunk st -> (1 <= Z.of_nat (total_words seeded))%Z).
Proof.
  split; [reflexivity|].
  apply (seeded_overlap_reaches_budget (hashlib := hashlib_md5) 4 1
           (chunk_loop (hashlib := hashlib_md5) 4 1 initial 0 ["a b c."])
           1 "d e f.").
  reflexivity.
Defined.

(** C4, as stated, fails. On ["a b c. d e f."] with [chunk_size = 4] and
    [overlap = 1] the second sentence closes the first chunk, and the
    overlap seeded into the next one is the whole three-word sentence
    ["a b c."], above the budget of one word. *)
Lemma overlap_budget_exceeded :
  let st := chunk_loop (hashlib := hashlib_md5) 4 1 initial 0 ["a b c."] in
  Py.re_split_sentences "a b c. d e f." = ["a b c."; "d e f."]
  /\ closes 4 st "d e f." = true
  /\ current_chunk (chunk_body (hashlib := hashlib_md5) 4 1 st 1 "d e f.")
     = ["a b c."; "d e f."]
  /\ keep_overlap 1 (current_chunk st) = ["a b c."]
  /\ ~ (Z.of_nat (total_words (keep_overlap 1 (current_chunk st))) <= 1)%Z.
Proof. repeat split; try reflexivity. vm_compute. congruence. Qed.

(** C6, as stated, fails. Same text and parameters: no sentence has more
    than four words, yet the second chunk is the two sentences together,
    six words long. *)
Lemma seeded_chunk_exceeds_chunk_size :
  chunk_document_smart (hashlib := hashlib_md5) "a b c. d e f." 4 1
  = [ {| chunk_id := "d124f051"; chunk_text := "a b c.";
         sentence_range := (0, 1); word_count := 3 |};
      {| chunk_id := "99c61383"; chunk_text := "a b c. d e f.";
         sentence_range := (1, 2); word_count := 6 |} ]
  /\ Forall (fun s => (Z.of_nat (words_of s) <= 4)%Z)
            (Py.re_split_sentences "a b c. d e f.")
  /\ ("a b c. d e f." ∉ Py.re_split_sentences "a b c. d e f.")
  /\ ~ (Z.of_nat 6 <= 4)%Z.
Proof.
  split; [vm_compute; reflexivity|].
  split; [repeat constructor; vm_compute; congruence|].
  split; [|lia].
  intros Hin. vm_compute in Hin.
  apply elem_of_cons in Hin as [Hin|Hin]; [discriminate|].
  apply elem_of_cons in Hin as [Hin|Hin]; [discriminate|].
  by apply elem_of_nil in Hin.
Qed.

End ChunkerFacts.

(** ** Claim verification and consensus *)

Section TextFacts.

Lemma prefix_spec p s :
  String.prefix p s = true <-> exists rest, s = p +:+ rest.
Proof.
  revert s. induction p as [|c p IH]; intros s.
  - split; [intros _; by exists s | by destruct s].
  - destruct s as [|d s]; simpl.
    + split; [done | intros [rest Hr]; discriminate].
    + destruct (ascii_dec c d) as [->|Hne].
      * rewrite IH. split; intros [rest Hr]; exists rest.
        -- by rewrite app_String, Hr.
        -- rewrite app_String in Hr. by injection Hr.
      * split; [done|]. intros [rest Hr].
        rewrite app_String in Hr. injection Hr as Hc _. congruence.
Qed.

(** [p in s] holds exactly when [p] is a contiguous part of [s]. *)
Lemma contains_spec s p :
  Py.contains s p = true <-> exists before after, s = before +:+ p +:+ after.
Proof.
  induction s as [|c s IH].
  - change (Py.contains EmptyString p)
      with (String.prefix p EmptyString || false).
    rewrite orb_false_r, prefix_spec. split.
    + intros [rest Hr]. by exists EmptyString, rest.
    + intros ([|d before] & after & Hs).
      * by exists after.
      * rewrite app_String in Hs. discriminate.
  - change (Py.contains (String c s) p)
      with (String.prefix p (String c s) || Py.contains s p).
    rewrite orb_true_iff, IH, prefix_spec. split.
    + intros [[rest Hr]|(before & after & Hs)].
      * by exists EmptyString, rest.
      * exists (String c before), after. by rewrite app_String, Hs.
    + intros ([|d before] & after & Hs).
      * left. by exists after.
      * right. rewrite app_String in Hs. injection Hs as _ Hs.
        by exists before, after.
Qed.

Lemma lower_app a b : Py.lower (a +:+ b) = Py.lower a +:+ Py.lower b.
Proof.
  induction a as [|c a IH]; [done|].
  rewrite app_String. simpl. by rewrite IH, app_String.
Qed.

(** Lowercasing keeps a contiguous part contiguous. *)
Lemma contains_lower s p :
  Py.contains s p = true -> Py.contains (Py.lower s) (Py.lower p) = true.
Proof.
  rewrite !contains_spec. intros (before & after & ->).
  exists (Py.lower before), (Py.lower after). by rewrite !lower_app.
Qed.

Lemma isspace_lower_char c : Py.isspace (Py.lower_char c) = Py.isspace c.
Proof. by destruct c as [[] [] [] [] [] [] [] []]. Qed.

Lemma lower_empty_iff w : Py.lower w = EmptyString <-> w = EmptyString.
Proof. by destruct w. Qed.

Lemma push_word_lower w ws :
  Py.push_word (Py.lower w) (Py.lower <$> ws)
  = Py.lower <$> Py.push_word w ws.
Proof. by destruct w. Qed.

Lemma split_go_lower s :
  Py.split_go (Py.lower s)
  = (Py.lower (Py.split_go s).1, Py.lower <$> (Py.split_go s).2).
Proof.
  induction s as [|c s IH]; [done|]. simpl.
  rewrite IH, isspace_lower_char.
  destruct (Py.split_go s) as [w ws]. simpl.
  destruct (Py.isspace c); [|done]. by rewrite push_word_lower.
Qed.

(** Lowercasing a text lowercases its words one by one. *)
Lemma split_lower s : Py.split (Py.lower s) = Py.lower <$> Py.split s.
Proof.
  unfold Py.split. rewrite split_go_lower.
  destruct (Py.split_go s) as [w ws]. apply push_word_lower.
Qed.

Lemma Qlt_bool_iff x y : Qlt_bool x y = true <-> (x < y)%Q.
Proof.
  unfold Qlt_bool. rewrite negb_true_iff. split.
  - intros Hb. apply Qnot_le_lt. intros Hle.
    apply Qle_bool_iff in Hle. congruence.
  - intros Hlt. destruct (Qle_bool y x) eqn:Hb; [|done].
    apply Qle_bool_iff in Hb. by apply Qlt_not_le in Hlt.
Qed.

End TextFacts.

Module EnsembleFacts.
Import Ensemble.
Section WithDifflib.
Context {difflib : Difflib}.

(** Claims of fewer than three words are looked up as substrings,
    ignoring case. *)
Lemma verify_short claim document :
  length (Py.split claim) < 3 ->
  _verify_claim_in_document claim document
  = Py.contains (Py.lower document) (Py.lower claim).
Proof.
  intros Hshort. unfold _verify_claim_in_document.
  rewrite split_lower, length_fmap.
  by destruct (Nat.ltb_spec (length (Py.split claim)) 3); [|lia].
Qed.

Lemma disjoint_overlap_below_half (claim_words doc_words : gset string) :
  claim_words ∩ doc_words = ∅ ->
  Qlt_bool (inject_Z (Z.of_nat (size (claim_words ∩ doc_words)))
            / inject_Z (Z.of_nat (size claim_words))) 0.5 = true.
Proof.
  intros ->. rewrite size_empty. apply Qlt_bool_iff.
  unfold Qdiv. rewrite Qmult_0_l. reflexivity.
Qed.

Lemma overlap_at_least_half (claim_words doc_words : gset string) :
  0 < size claim_words ->
  Qlt_bool (inject_Z (Z.of_nat (size (claim_words ∩ doc_words)))
            / inject_Z (Z.of_nat (size claim_words))) 0.5 = false
  <-> size claim_words <= 2 * size (claim_words ∩ doc_words).
Proof.
  intros Hpos.
  set (k := size (claim_words ∩ doc_words)). set (n := size claim_words) in *.
  assert (0 < inject_Z (Z.of_nat n))%Q as Hn.
  { change 0%Q with (inject_Z 0). rewrite <- Zlt_Qlt. lia. }
  rewrite <- not_true_iff_false, Qlt_bool_iff. split.
  - intros Hge. apply Qnot_lt_le in Hge.
    assert (0.5 * inject_Z (Z.of_nat n) <= inject_Z (Z.of_nat k))%Q as Hle.
    { apply (Qmult_le_compat_r _ _ (inject_Z (Z.of_nat n))) in Hge; [|lra].
      assert (inject_Z (Z.of_nat k) / inject_Z (Z.of_nat n)
              * inject_Z (Z.of_nat n) == inject_Z (Z.of_nat k))%Q as Heq
        by (field; lra).
      by rewrite Heq in Hge. }
    assert (inject_Z (Z.of_nat n) <= inject_Z 2 * inject_Z (Z.of_nat k))%Q
      as Hz by (change (inject_Z 2) with 2%Q; lra).
    rewrite <- inject_Z_mult, <- Zle_Qle in Hz. lia.
  - intros Hle. apply Qle_not_lt. apply Qle_shift_div_l; [done|].
    assert (inject_Z (Z.of_nat n) <= inject_Z 2 * inject_Z (Z.of_nat k))%Q
      as Hz by (rewrite <- inject_Z_mult, <- Zle_Qle; lia).
    change (inject_Z 2) with 2%Q in Hz. lra.
Qed.

Lemma claim_words_nonempty claim :
  3 <= length (Py.split claim) ->
  0 < size (list_to_set (Py.split (Py.lower claim)) : gset string).
Proof.
  intros Hlong. rewrite split_lower.
  destruct (Py.split claim) as [|w ws]; [simpl in Hlong; lia|].
  rewrite fmap_cons, list_to_set_cons.
  assert (size ({[Py.lower w]} ∪ list_to_set (Py.lower <$> ws) : gset string)
          <> 0) as Hne; [|lia].
  intros Hzero. apply size_empty_inv in Hzero. set_solver.
Qed.

(** Claims of three or more words pass exactly when they pass both tests:
    the word overlap and the similarity to a sentence. *)
Lemma verify_long claim document :
  3 <= length (Py.split claim) ->
  _verify_claim_in_document claim document = true
  <-> shares_half_its_words claim document
      /\ resembles_a_sentence claim document.
Proof.
  intros Hlong. unfold _verify_claim_in_document.
  pose proof (claim_words_nonempty claim Hlong) as Hpos.
  rewrite (split_lower claim), length_fmap.
  destruct (Nat.ltb_spec (length (Py.split claim)) 3); [lia|].
  rewrite <- (split_lower claim).
  unfold shares_half_its_words, resembles_a_sentence. cbn zeta.
  rewrite <- (overlap_at_least_half _ _ Hpos).
  destruct (Qlt_bool _ 0.5) eqn:Hratio.
  - split; [done|]. by intros [? _].
  - rewrite existsb_exists. split.
    + intros (sentence & Hin & Hsim). split; [done|].
      exists sentence. split; [by apply list_elem_of_In|].
      by apply Qlt_bool_iff.
    + intros [_ (sentence & Hin & Hsim)].
      exists sentence. split; [by apply list_elem_of_In|].
      by apply Qlt_bool_iff.
Qed.

(** C2 (amended). On ASCII text, where lowercasing acts character by
    character: a claim of fewer than three words is verified exactly when
    its lowercased text is a contiguous part of the lowercased document,
    hence whenever it occurs verbatim in the document; a claim of three
    or more words is verified exactly when at least half of its distinct
    lowercased words are words of the lowercased document and some
    sentence of the lowercased document has similarity above 0.7 to it,
    hence never when none of its words is a word of the document, and,
    even for a verbatim part of the document, only under both tests. *)
Theorem verify_short_verbatim_or_long_disjoint claim document :
  Py.isascii claim = true ->
  Py.isascii document = true ->
  (length (Py.split claim) < 3 ->
   (_verify_claim_in_document claim document = true
    <-> exists before after,
          Py.lower document = before +:+ Py.lower claim +:+ after)
   /\ ((exists before after, document = before +:+ claim +:+ after) ->
       _verify_claim_in_document claim document = true))
  /\ (3 <= length (Py.split claim) ->
      (_verify_claim_in_document claim document = true
       <-> shares_half_its_words claim document
           /\ resembles_a_sentence claim document)
      /\ ((forall w, w ∈ Py.split (Py.lower claim) ->
                     w ∉ Py.split (Py.lower document)) ->
          _verify_claim_in_document claim document = false)
      /\ ((exists before after, document = before +:+ claim +:+ after) ->
          _verify_claim_in_document claim document = true ->
          shares_half_its_words claim document
          /\ resembles_a_sentence claim document)).
Proof.
  intros _ _. split.
  - intros Hshort. rewrite verify_short by done. split.
    + apply contains_spec.
    + intros Hsub. apply contains_lower, contains_spec, Hsub.
  - intros Hlong. split; [by apply verify_long|]. split.
    + intros Hdisj. unfold _verify_claim_in_document.
      rewrite (split_lower claim), length_fmap.
      destruct (Nat.ltb_spec (length (Py.split claim)) 3); [lia|].
      rewrite <- (split_lower claim).
      rewrite disjoint_overlap_below_half; [done|].
      apply leibniz_equiv. apply elem_of_equiv_empty. intros w Hw.
      apply elem_of_intersection in Hw as [Hc Hd].
      apply elem_of_list_to_set in Hc. apply elem_of_list_to_set in Hd.
      by apply (Hdisj w).
    + intros _. by apply verify_long.
Qed.

(** *** What [Counter] counts *)

Lemma count_in_counter_add y c x :
  count_in (counter_add y c) x
  = count_in c x + (if decide (y = x) then 1 else 0).
Proof.
  induction c as [|[k n] c IH]; simpl.
  - destruct (decide (y = x)); lia.
  - destruct (decide (y = k)) as [->|Hne]; simpl.
    + destruct (decide (k = x)); lia.
    + rewrite IH. lia.
Qed.

Lemma keys_counter_add y c :
  (counter_add y c).*1 = if decide (y ∈ c.*1) then c.*1 else c.*1 ++ [y].
Proof.
  induction c as [|[k n] c IH].
  - by destruct (decide (y ∈ ([] : list (string * nat)).*1))
      as [Hin%elem_of_nil|_].
  - cbn [counter_add].
    destruct (decide (y = k)) as [->|Hne]; rewrite !fmap_cons; cbn [fst].
    + rewrite decide_True; [done|apply list_elem_of_here].
    + rewrite IH. destruct (decide (y ∈ c.*1)) as [Hin|Hnin].
      * rewrite decide_True; [done|by apply list_elem_of_further].
      * rewrite decide_False; [done|]. by apply not_elem_of_cons.
Qed.

Lemma positive_counter_add y c :
  Forall (fun p => 0 < p.2) c -> Forall (fun p => 0 < p.2) (counter_add y c).
Proof.
  induction 1 as [|[k n] c Hp Hc IH]; simpl.
  - constructor; [simpl; lia|done].
  - destruct (decide (y = k)); constructor; simpl in *; try done; lia.
Qed.

Lemma NoDup_counter_add y c : NoDup c.*1 -> NoDup (counter_add y c).*1.
Proof.
  intros Hc. rewrite keys_counter_add.
  destruct (decide (y ∈ c.*1)); [done|].
  apply NoDup_app. repeat split; [done| |apply NoDup_singleton].
  intros x Hx Hy. apply list_elem_of_singleton in Hy as ->. done.
Qed.

Lemma Counter_spec l :
  NoDup (Counter l).*1
  /\ Forall (fun p => 0 < p.2) (Counter l)
  /\ forall x, count_in (Counter l) x = occurrences x l.
Proof.
  unfold Counter. induction l as [|y l IH] using rev_ind.
  - simpl. split; [apply NoDup_nil_2|]. split; [apply Forall_nil_2|done].
  - rewrite foldl_snoc. destruct IH as (Hnd & Hpos & Hcount).
    split; [|split].
    + by apply NoDup_counter_add.
    + by apply positive_counter_add.
    + intros x. rewrite count_in_counter_add, Hcount.
      unfold occurrences. rewrite filter_app, length_app.
      f_equal. rewrite filter_cons.
      destruct (decide (y = x)); done.
Qed.

Lemma count_in_NoDup c x n :
  NoDup c.*1 -> (x, n) ∈ c -> count_in c x = n.
Proof.
  induction c as [|[k m] c IH]; intros Hnd Hin.
  - by apply elem_of_nil in Hin.
  - apply NoDup_cons in Hnd as [Hk Hnd]. simpl.
    apply elem_of_cons in Hin as [Heq|Hin].
    + injection Heq as <- <-. rewrite decide_True by done.
      assert (count_in c x = 0) as ->; [|lia].
      clear -Hk. induction c as [|[k' m'] c IH]; [done|]. simpl in *.
      apply not_elem_of_cons in Hk as [Hne Hk].
      rewrite decide_False by done. by rewrite IH.
    + destruct (decide (k = x)) as [->|Hne]; [|by rewrite IH].
      destruct Hk. apply list_elem_of_fmap. by exists (x, n).
Qed.

Lemma count_in_positive c x :
  0 < count_in c x -> exists n, (x, n) ∈ c /\ 0 < n.
Proof.
  induction c as [|[k m] c IH]; simpl; [lia|]. intros Hpos.
  destruct (decide (k = x)) as [->|Hne].
  - destruct (decide (0 < m)) as [Hm|Hm].
    + exists m. split; [apply elem_of_cons; by left|done].
    + destruct IH as (n & Hin & Hn); [lia|].
      exists n. split; [apply elem_of_cons; by right|done].
  - destruct IH as (n & Hin & Hn); [lia|].
    exists n. split; [apply elem_of_cons; by right|done].
Qed.

(** The code's consensus test: a claim is a consensus claim exactly when
    it occurs at least twice in the concatenation of the claims of all
    responses, wherever those occurrences come from. *)
Lemma consensus_claims_spec responses claim :
  claim ∈ consensus_claims responses
  <-> 2 <= occurrences claim (all_claims responses).
Proof.
  unfold consensus_claims.
  destruct (Counter_spec (all_claims responses)) as (Hnd & Hpos & Hcount).
  rewrite <- Hcount. split.
  - intros Hin. apply list_elem_of_fmap in Hin as ([k n] & -> & Hin).
    apply list_elem_of_filter in Hin as [Hn Hin]. simpl.
    by rewrite (count_in_NoDup _ k n Hnd Hin).
  - intros Hc.
    destruct (count_in_positive (Counter (all_claims responses)) claim)
      as (n & Hin & _); [lia|].
    apply list_elem_of_fmap. exists (claim, n). split; [done|].
    apply list_elem_of_filter. split; [|done].
    by rewrite (count_in_NoDup _ claim n Hnd Hin) in Hc.
Qed.

End WithDifflib.

(** C5: the code counts occurrences, not responses. The single response
    below repeats one sentence; the sentence is a claim of one response
    only, and the code lists it among the consensus claims. *)
Lemma repeated_claim_reaches_consensus :
  let response :=
    "The tower was completed in 1889. The tower was completed in 1889." in
  let claim := "The tower was completed in 1889" in
  _extract_claims response = [claim; claim]
  /\ length (filter (fun r => claim ∈ _extract_claims r) [response]) = 1
  /\ consensus_claims [response] = [claim].
Proof. vm_compute. done. Qed.

Lemma verify_witness :
  _verify_claim_in_document (difflib := identical_or_not)
                            "1889" Samples.document = true
  /\ _verify_claim_in_document (difflib := identical_or_not)
                               "Bananas are yellow fruit" Samples.document
     = false.
Proof.
  split.
  - destruct (verify_short_verbatim_or_long_disjoint
                (difflib := identical_or_not) "1889" Samples.document
                eq_refl eq_refl) as [Hshort _].
    destruct Hshort as [_ Hverbatim]; [vm_compute; lia|].
    apply Hverbatim.
    by exists "Paris is the capital of France. The Eiffel Tower was completed in ",
              ".".
  - destruct (verify_short_verbatim_or_long_disjoint
                (difflib := identical_or_not)
                "Bananas are yellow fruit" Samples.document
                eq_refl eq_refl) as [_ Hlong].
    destruct Hlong as (_ & Hdisjoint & _); [vm_compute; lia|].
    apply Hdisjoint. apply Forall_forall. compute_done.
Defined.

(** A phrase of whole words fares no better: [ratio] never exceeds
    [2 * min(len(a), len(b)) / (len(a) + len(b))] (difflib's
    [real_quick_ratio]), so against the only sentence of the document the
    three-word phrase stays below 0.7. *)
Lemma whole_word_phrase_rejected (D : Difflib) :
  (forall a b,
      0 < String.length a + String.length b ->
      (SequenceMatcher_ratio a b
       <= 2 * inject_Z (Z.of_nat (String.length a `min` String.length b))
          / inject_Z (Z.of_nat (String.length a + String.length b)))%Q) ->
  Py.contains "The Eiffel Tower was completed in 1889." "The Eiffel Tower"
  = true
  /\ _verify_claim_in_document "The Eiffel Tower"
                               "The Eiffel Tower was completed in 1889."
     = false.
Proof.
  intros Hbound. split; [reflexivity|].
  assert (forall b,
             String.length b = 38 \/ String.length b = 0 ->
             Qlt_bool 0.7 (SequenceMatcher_ratio "the eiffel tower" b)
             = false) as Hlow.
  { intros b Hb. apply negb_false_iff, Qle_bool_iff.
    eapply Qle_trans; [apply Hbound; simpl; lia|].
    destruct Hb as [-> | ->]; vm_compute; congruence. }
  unfold _verify_claim_in_document.
  match goal with
  | |- context [Py.lower "The Eiffel Tower"] =>
      let v := eval vm_compute in (Py.lower "The Eiffel Tower") in
      change (Py.lower "The Eiffel Tower") with v
  end.
  match goal with
  | |- context [Py.lower ?d] =>
      let v := eval vm_compute in (Py.lower d) in change (Py.lower d) with v
  end.
  match goal with
  | |- context [Nat.ltb ?n 3] =>
      let v := eval vm_compute in (Nat.ltb n 3) in change (Nat.ltb n 3) with v
  end.
  match goal with
  | |- context [Qlt_bool ?x 0.5] =>
      assert (Qlt_bool x 0.5 = false) as -> by (vm_compute; reflexivity)
  end.
  match goal with
  | |- context [Py.re_split_class ?d ?t] =>
      let v := eval vm_compute in (Py.re_split_class d t) in
      change (Py.re_split_class d t) with v
  end.
  cbn [existsb].
  rewrite !Hlow; [done|by right|by left].
Qed.

(** C2, as stated, fails on both sides. The claim ["aris is th"] occurs
    verbatim in the document but only one of its three words is a word of
    the document, so the overlap filter rejects it whatever the similarity
    measure; the one-word claim ["capital"] shares no word with the
    document ["capitalism works"] and is accepted as a substring. *)
Lemma verbatim_rejected_and_disjoint_accepted :
  (Py.contains "Paris is the capital of France." "aris is th" = true
   /\ forall D : Difflib,
       _verify_claim_in_document "aris is th"
                                 "Paris is the capital of France." = false)
  /\ ((forall w, w ∈ Py.split (Py.lower "capital") ->
                 w ∉ Py.split (Py.lower "capitalism works"))
      /\ forall D : Difflib,
          _verify_claim_in_document "capital" "capitalism works" = true).
Proof.
  split; split.
  - reflexivity.
  - intros D. vm_compute. reflexivity.
  - intros w Hw Hd. vm_compute in Hw, Hd.
    apply list_elem_of_singleton in Hw as ->.
    apply elem_of_cons in Hd as [Hd|Hd]; [discriminate|].
    apply elem_of_cons in Hd as [Hd|Hd]; [discriminate|].
    by apply elem_of_nil in Hd.
  - intros D. vm_compute. reflexivity.
Qed.

End EnsembleFacts.

(** ** The validators and the orchestrator *)

Module PipelineFacts.
Import Pipeline.

Lemma reliability_of_max n :
  (reliability_of n == Qmax 0 (1 - 0.2 * inject_Z (Z.of_nat n)))%Q.
Proof.
  unfold reliability_of.
  destruct (Qlt_bool 0 (1 - inject_Z (Z.of_nat n) * 0.2)) eqn:Hb.
  - apply Qlt_bool_iff in Hb. rewrite Q.max_r; lra.
  - assert (~ (0 < 1 - inject_Z (Z.of_nat n) * 0.2)%Q) as Hn.
    { intros Hlt. apply Qlt_bool_iff in Hlt. congruence. }
    rewrite Q.max_l; lra.
Qed.

Lemma reliability_of_range n : (0 <= reliability_of n <= 1)%Q.
Proof.
  assert (0 <= inject_Z (Z.of_nat n))%Q as Hn.
  { change 0%Q with (inject_Z 0). rewrite <- Zle_Qle. lia. }
  unfold reliability_of.
  destruct (Qlt_bool 0 (1 - inject_Z (Z.of_nat n) * 0.2)) eqn:Hb.
  - apply Qlt_bool_iff in Hb. lra.
  - lra.
Qed.

Lemma reliability_of_zero : (reliability_of 0 == 1)%Q.
Proof. reflexivity. Qed.

Lemma reliability_of_clamped n : 5 <= n -> (reliability_of n == 0)%Q.
Proof.
  intros Hn.
  assert (5 <= inject_Z (Z.of_nat n))%Q as Hq.
  { change 5%Q with (inject_Z 5). rewrite <- Zle_Qle. lia. }
  unfold reliability_of.
  destruct (Qlt_bool 0 (1 - inject_Z (Z.of_nat n) * 0.2)) eqn:Hb; [|reflexivity].
  apply Qlt_bool_iff in Hb. lra.
Qed.

Lemma is_problem_line_spec l :
  is_problem_line l = true
  <-> Py.strip l <> EmptyString /\ Py.startswith (Py.strip l) "None" = false.
Proof.
  unfold is_problem_line.
  rewrite andb_true_iff, !negb_true_iff, String.eqb_neq. done.
Qed.

Section WithCollaborators.
Context {difflib : Difflib} {together : Together}.

(** C8 (amended). When the critic's call returns [problems], the
    validator counts the lines of [problems] that are not blank and
    whose text, once stripped of surrounding white space, does not begin
    with the capitalised marker ["None"]; the reliability score is
    [max(0, 1 - 0.2 * problem_count)], which is 1 for no problem and 0
    from five problems on, and never leaves [0, 1]; and the answer is
    reliable exactly when fewer than two problems were counted. *)
Theorem adversarial_scoring document query answer s problems w :
  Complete_create (adversarial_request document query answer) (world s)
  = (Returns problems, w) ->
  exists v s',
    adversarial_validation document query answer s = (Value v, s')
    /\ problems_found v = problems
    /\ problem_count v
       = length (filter (fun l => Py.strip l <> EmptyString
                                  /\ Py.startswith (Py.strip l) "None" = false)
                        (Py.split_char "010" problems))
    /\ (reliability_score v
        == Qmax 0 (1 - 0.2 * inject_Z (Z.of_nat (problem_count v))))%Q
    /\ (problem_count v = 0 -> (reliability_score v == 1)%Q)
    /\ (5 <= problem_count v -> (reliability_score v == 0)%Q)
    /\ (0 <= reliability_score v <= 1)%Q
    /\ (is_reliable v = true <-> problem_count v < 2).
Proof.
  intros Hcall. unfold adversarial_validation, bind, complete, ret.
  rewrite Hcall. eexists _, _. split; [reflexivity|]. simpl.
  split; [done|]. split.
  { unfold problem_lines. f_equal. apply list_filter_iff.
    intros l. apply is_problem_line_spec. }
  split; [apply reliability_of_max|].
  split; [by intros ->|].
  split; [apply reliability_of_clamped|].
  split; [apply reliability_of_range|].
  apply Nat.ltb_lt.
Qed.

Lemma slice_to_all_templates num_passes :
  (3 <= num_passes)%Z ->
  Py.slice_to num_passes prompt_templates = prompt_templates.
Proof.
  intros Hn. unfold Py.slice_to.
  destruct (Z.leb_spec 0 num_passes); [|lia].
  apply take_ge. simpl. lia.
Qed.

(** Every pass of the loop issues exactly one call and none aborts it. *)
Lemma ensemble_loop_runs document query templates :
  forall i responses s,
    i + length templates <= 3 ->
    exists responses' s' requests,
      ensemble_loop document query i templates responses s
      = (Value responses', s')
      /\ issued s' = issued s ++ requests
      /\ prompt <$> requests
         = (fun t => EnsemblePrompt t document query) <$> templates.
Proof.
  induction templates as [|t rest IH]; intros i responses s Hi.
  - exists responses, s, []. by rewrite app_nil_r.
  - simpl in Hi. cbn [ensemble_loop].
    unfold bind at 1, try_except, bind, ensemble_pass.
    assert (exists temp, temperatures !! i = Some temp) as [temp ->].
    { destruct i as [|[|[|i]]]; simpl; eauto; lia. }
    unfold complete.
    destruct (Complete_create _ (world s)) as [[text|e] w]; simpl.
    + destruct (IH (S i) (responses ++ [text])
                   {| world := w; issued := issued s ++ [
                        {| model := if i =? 0 then primary_model
                                    else verification_model;
                           prompt := EnsemblePrompt t document query;
                           max_tokens := 600;
                           temperature := temp;
                           top_p := Some 0.9%Q;
                           repetition_penalty := Some 1.2%Q |}] |})
        as (r' & s' & reqs & Hrun & Hiss & Hpr); [lia|].
      eexists r', s', (_ :: reqs). split; [exact Hrun|].
      split; [by rewrite Hiss; simpl; rewrite <- app_assoc|].
      by rewrite fmap_cons, Hpr.
    + destruct (IH (S i) responses
                   {| world := w; issued := issued s ++ [
                        {| model := if i =? 0 then primary_model
                                    else verification_model;
                           prompt := EnsemblePrompt t document query;
                           max_tokens := 600;
                           temperature := temp;
                           top_p := Some 0.9%Q;
                           repetition_penalty := Some 1.2%Q |}] |})
        as (r' & s' & reqs & Hrun & Hiss & Hpr); [lia|].
      eexists r', s', (_ :: reqs). split; [exact Hrun|].
      split; [by rewrite Hiss; simpl; rewrite <- app_assoc|].
      by rewrite fmap_cons, Hpr.
Qed.

(** C10. With [num_passes] above three the ensemble behaves exactly as
    with three: it returns a result (it never raises), the same result
    and final state as for three passes, after issuing exactly three
    completion requests, one per prompt template and in template order. *)
Theorem ensemble_pass_cap document query num_passes s :
  (3 < num_passes)%Z ->
  ensemble_extraction document query num_passes s
  = ensemble_extraction document query 3 s
  /\ exists result s' requests,
      ensemble_extraction document query num_passes s = (Value result, s')
      /\ issued s' = issued s ++ requests
      /\ prompt <$> requests
         = [EnsemblePrompt StrictCitation document query;
            EnsemblePrompt ChainOfThought document query;
            EnsemblePrompt NegativeInstruction document query].
Proof.
  intros Hn. unfold ensemble_extraction.
  rewrite (slice_to_all_templates num_passes) by lia.
  rewrite (slice_to_all_templates 3) by lia.
  split; [done|].
  destruct (ensemble_loop_runs document query prompt_templates 0 [] s)
    as (r & s' & reqs & Hrun & Hiss & Hpr); [simpl; lia|].
  unfold bind. rewrite Hrun. by eexists _, s', reqs.
Qed.


Lemma analyze_advanced_accepted data document query :
  accepted data document query ->
  analyze_advanced (Some data)
  = try_except (run_stages document query) (fun e => ret (Error e 500)).
Proof.
  intros (Hne & -> & -> & Hd & Hq & Hld & Hlq). unfold analyze_advanced.
  rewrite bool_decide_eq_false_2 by done.
  apply String.eqb_neq in Hd. apply String.eqb_neq in Hq.
  rewrite Hd, Hq. simpl.
  apply Z.ltb_ge in Hld. apply Z.ltb_ge in Hlq. by rewrite Hld, Hlq.
Qed.

Lemma analyze_advanced_json data s body s' :
  analyze_advanced data s = (Value (Json body), s') ->
  exists d document query, data = Some d /\ accepted d document query.
Proof.
  unfold analyze_advanced, try_except. intros Hrun.
  destruct data as [d|]; [|discriminate]. exists d.
  destruct (bool_decide (d = ∅)) eqn:He; [discriminate|].
  apply bool_decide_eq_false in He.
  set (document := Py.strip (default EmptyString (d !! "document"))) in *.
  set (query := Py.strip (default EmptyString (d !! "query"))) in *.
  exists document, query. split; [done|].
  destruct (String.eqb document EmptyString) eqn:Hd; [discriminate|].
  destruct (String.eqb query EmptyString) eqn:Hq; [discriminate|].
  simpl in Hrun.
  destruct (Z.ltb_spec 200000 (Z.of_nat (String.length document)));
    [discriminate|].
  destruct (Z.ltb_spec 1000 (Z.of_nat (String.length query)));
    [discriminate|].
  apply String.eqb_neq in Hd. apply String.eqb_neq in Hq.
  by repeat split.
Qed.

(** C3. Every run of the orchestrator that yields the analysis body went
    through the three stages in order, and reconciles them as follows:
    the final answer is the ensemble's consensus answer when the
    adversarial check is reliable and the fact validator's answer
    otherwise, and the overall flag is the conjunction of the adversarial
    [is_reliable] and the fact validator's [reliable]. *)
Theorem reconciliation data s body s' :
  analyze_advanced data s = (Value (Json body), s') ->
  exists document query ensemble_result fact_result checked s1 s2,
    ensemble_extraction document query 3 s = (Value ensemble_result, s1)
    /\ fact_extraction_validation document query s1
       = (Value fact_result, s2)
    /\ adversarial_validation document query
                              (consensus_answer ensemble_result) s2
       = (Value checked, s')
    /\ validation body = checked
    /\ fact_validation body = fact_result
    /\ final_answer body
       = (if is_reliable checked then consensus_answer ensemble_result
          else answer fact_result)
    /\ overall_is_reliable body
       = is_reliable checked && reliable fact_result.
Proof.
  intros Hrun.
  destruct (analyze_advanced_json _ _ _ _ Hrun)
    as (d & document & query & -> & Hacc).
  rewrite (analyze_advanced_accepted d document query Hacc) in Hrun.
  unfold try_except, run_stages, bind, ret in Hrun.
  destruct (ensemble_extraction document query 3 s)
    as [[ensemble_result|e] s1] eqn:Hens; [|discriminate].
  destruct (fact_extraction_validation document query s1)
    as [[fact_result|e] s2] eqn:Hfact; [|discriminate].
  destruct (adversarial_validation document query
                                   (consensus_answer ensemble_result) s2)
    as [[checked|e] s3] eqn:Hadv; [|discriminate].
  injection Hrun as <- <-.
  exists document, query, ensemble_result, fact_result, checked, s1, s2.
  repeat split; try done. simpl. by destruct (is_reliable checked).
Qed.

(** When the critic's call raises, nothing in [adversarial_validation]
    catches it, and the orchestrator's outer handler answers with the
    error and status 500 instead of an analysis. *)
Lemma adversarial_failure_is_an_error data document query s
      ensemble_result s1 fact_result s2 e w :
  accepted data document query ->
  ensemble_extraction document query 3 s = (Value ensemble_result, s1) ->
  fact_extraction_validation document query s1 = (Value fact_result, s2) ->
  Complete_create
    (adversarial_request document query (consensus_answer ensemble_result))
    (world s2) = (Raises e, w) ->
  exists s', analyze_advanced (Some data) s = (Value (Error e 500), s').
Proof.
  intros Hacc Hens Hfact Hcall.
  rewrite (analyze_advanced_accepted data document query Hacc).
  unfold try_except, run_stages, bind. rewrite Hens, Hfact.
  unfold adversarial_validation, bind, complete. rewrite Hcall.
  by eexists.
Qed.

End WithCollaborators.

(** *** The theorems at work on the sample conversation *)

Lemma adversarial_scoring_witness :
  exists v s',
    adversarial_validation (together := scripted) Samples.document Samples.query
                           "1889" (Samples.start [Returns "None"])
    = (Value v, s')
    /\ problem_count v = 0 /\ is_reliable v = true
    /\ (reliability_score v == 1)%Q.
Proof.
  destruct (adversarial_scoring (together := scripted) Samples.document
              Samples.query "1889" (Samples.start [Returns "None"])
              "None" [] eq_refl)
    as (v & s' & Hrun & _ & Hcount & _ & Hzero & _ & _ & Hrel).
  assert (Hnone : problem_count v = 0).
  { rewrite Hcount. vm_compute. reflexivity. }
  exists v, s'.
  repeat split; [exact Hrun|exact Hnone| |by apply Hzero].
  apply Hrel. rewrite Hnone. lia.
Defined.

(** C8, as stated, fails: the critic's output ["none"] is one non-empty
    line that begins with ["none"], so the stated count is 0, while the
    code, which looks for ["None"], counts it as a problem. *)
Lemma lowercase_none_is_counted :
  length (filter (fun l => l <> EmptyString /\ Py.startswith l "none" = false)
                 (Py.split_char "010" "none")) = 0
  /\ problem_count (score_problems "none") = 1
  /\ fst (adversarial_validation (together := scripted) Samples.document
            Samples.query "1889" (Samples.start [Returns "none"]))
     = Value {| problems_found := "none";
                problem_count := 1;
                reliability_score := reliability_of 1;
                is_reliable := true |}.
Proof. vm_compute. done. Qed.

Lemma ensemble_pass_cap_witness :
  ensemble_extraction (difflib := identical_or_not) (together := scripted)
    Samples.document Samples.query 7 (Samples.start Samples.agreeable)
  = ensemble_extraction (difflib := identical_or_not) (together := scripted)
      Samples.document Samples.query 3 (Samples.start Samples.agreeable)
  /\ exists result s' requests,
      ensemble_extraction (difflib := identical_or_not) (together := scripted)
        Samples.document Samples.query 7 (Samples.start Samples.agreeable)
      = (Value result, s')
      /\ issued s' = issued (Samples.start Samples.agreeable) ++ requests
      /\ prompt <$> requests
         = [EnsemblePrompt StrictCitation Samples.document Samples.query;
            EnsemblePrompt ChainOfThought Samples.document Samples.query;
            EnsemblePrompt NegativeInstruction Samples.document Samples.query].
Proof.
  apply (ensemble_pass_cap (difflib := identical_or_not) (together := scripted)
           Samples.document Samples.query 7
           (Samples.start Samples.agreeable)).
  lia.
Defined.

Lemma reconciliation_witness :
  exists body s',
    analyze_advanced (difflib := identical_or_not) (together := scripted)
                     (Some Samples.body) (Samples.start Samples.agreeable)
    = (Value (Json body), s')
    /\ final_answer body = "The Eiffel Tower was completed in 1889"
    /\ overall_is_reliable body
       = is_reliable (validation body) && reliable (fact_validation body).
Proof.
  assert (Hrun : analyze_advanced (difflib := identical_or_not) (together := scripted)
                   (Some Samples.body) (Samples.start Samples.agreeable)
                 = Samples.sample_run) by (vm_compute; reflexivity).
  unfold Samples.sample_run in Hrun.
  destruct (reconciliation (difflib := identical_or_not) (together := scripted)
              _ _ _ _ Hrun)
    as (d & q & ens & fact & checked & s1 & s2
        & _ & _ & _ & Hv & Hf & _ & Hflag).
  eexists _, _. split; [exact Hrun|]. split; [reflexivity|].
  by rewrite Hflag, Hv, Hf.
Defined.

(** C7: the sample conversation with the critic's call failing. The
    request is valid, the ensemble and the fact validator both answer, and
    the orchestrator returns the error with status 500: no answer and no
    reliability signal. *)
Lemma critic_failure_aborts_pipeline :
  fst (analyze_advanced (difflib := identical_or_not) (together := scripted)
                        (Some Samples.body)
                        (Samples.start Samples.critic_down))
  = Value (Error "Request timed out" 500).
Proof. vm_compute. reflexivity. Qed.

End PipelineFacts.

(** ** Diversified retrieval *)

Module RetrieverFacts.
Import Retriever.

(** *** The sort is a rearrangement *)

Lemma insert_by_score_perm m l : insert_by_score m l ≡ₚ m :: l.
Proof.
  induction l as [|y l IH]; simpl; [done|].
  destruct (Qle_bool (score y) (score m)); [done|].
  rewrite IH. apply Permutation_swap.
Qed.

Lemma sort_by_score_perm l : sort_by_score l ≡ₚ l.
Proof.
  induction l as [|m l IH]; simpl; [done|].
  by rewrite insert_by_score_perm, IH.
Qed.

Lemma sort_by_score_length l : length (sort_by_score l) = length l.
Proof. by rewrite sort_by_score_perm. Qed.

(** *** Slices *)

Lemma slice_to_length_le {A} (k : Z) (l : list A) :
  (0 <= k)%Z -> (Z.of_nat (length (Py.slice_to k l)) <= k)%Z.
Proof.
  intros Hk. unfold Py.slice_to.
  destruct (Z.leb_spec 0 k); [|lia]. rewrite length_take. lia.
Qed.

Lemma slice_to_ge {A} (k : Z) (l : list A) :
  (Z.of_nat (length l) <= k)%Z -> Py.slice_to k l = l.
Proof.
  intros Hk. unfold Py.slice_to.
  destruct (Z.leb_spec 0 k); [|lia]. apply take_ge. lia.
Qed.

Lemma slice_to_length_lt {A} (k : Z) (l : list A) :
  (0 <= k <= Z.of_nat (length l))%Z ->
  Z.of_nat (length (Py.slice_to k l)) = k.
Proof.
  intros Hk. unfold Py.slice_to.
  destruct (Z.leb_spec 0 k); [|lia]. rewrite length_take. lia.
Qed.

(** *** The grouping *)

Lemma keys_by_source_add k m d :
  (by_source_add k m d).*1 = if decide (k ∈ d.*1) then d.*1 else d.*1 ++ [k].
Proof.
  induction d as [|[k' ms] d IH].
  - by destruct (decide (k ∈ ([] : list (string * list Match)).*1))
      as [Hin%elem_of_nil|_].
  - cbn [by_source_add].
    destruct (decide (k = k')) as [->|Hne]; rewrite !fmap_cons; cbn [fst].
    + rewrite decide_True; [done|apply list_elem_of_here].
    + rewrite IH. destruct (decide (k ∈ d.*1)) as [Hin|Hnin].
      * rewrite decide_True; [done|by apply list_elem_of_further].
      * rewrite decide_False; [done|]. by apply not_elem_of_cons.
Qed.

Lemma grouped_weaken matches m d :
  grouped matches d -> grouped (matches ++ [m]) d.
Proof.
  unfold grouped. intros Hd. eapply Forall_impl; [exact Hd|].
  intros [k ms] [Hne Hms]. split; [done|].
  eapply Forall_impl; [exact Hms|]. intros x [Hx Hin]. split; [done|].
  apply elem_of_app. by left.
Qed.

Lemma grouped_by_source_add matches m d :
  m ∈ matches ->
  grouped matches d -> grouped matches (by_source_add (source_of m) m d).
Proof.
  intros Hm. unfold grouped.
  induction 1 as [|[k ms] d [Hne Hms] Hd IH]; simpl.
  - repeat constructor; done.
  - destruct (decide (source_of m = k)) as [Heq|Hneq].
    + constructor; [|done]. simpl in *. split.
      * intros Hnil. by apply app_eq_nil in Hnil as [_ ?].
      * apply Forall_app. split; [done|]. by apply Forall_singleton.
    + constructor; done.
Qed.

Lemma by_source_spec matches :
  grouped matches (by_source matches)
  /\ NoDup (by_source matches).*1
  /\ forall k, k ∈ (by_source matches).*1 <-> k ∈ source_of <$> matches.
Proof.
  unfold by_source. induction matches as [|m l IH] using rev_ind.
  - simpl. split; [constructor|]. split; [apply NoDup_nil_2|done].
  - rewrite foldl_snoc. destruct IH as (Hg & Hnd & Hkeys).
    split.
    { apply grouped_by_source_add; [|by apply grouped_weaken].
      apply elem_of_app. right. apply list_elem_of_here. }
    rewrite keys_by_source_add, fmap_app.
    destruct (decide (source_of m ∈ _)) as [Hin|Hnin].
    + split; [done|]. intros k. rewrite elem_of_app, Hkeys. simpl.
      rewrite list_elem_of_singleton. split; [tauto|].
      intros [Hk| ->]; [done|]. by apply Hkeys.
    + split.
      * apply NoDup_app. repeat split; [done| |apply NoDup_singleton].
        intros x Hx Hs. apply list_elem_of_singleton in Hs as ->. done.
      * intros k. rewrite !elem_of_app, Hkeys. done.
Qed.

Lemma remove_dups_length_le (l : list string) :
  length (remove_dups l) <= length l.
Proof.
  induction l as [|x l IH]; simpl; [done|].
  destruct (decide_rel elem_of x l); simpl; lia.
Qed.

(** The number of groups is the number of distinct sources. *)
Lemma by_source_length matches :
  length (by_source matches) = length (sources_of matches).
Proof.
  destruct (by_source_spec matches) as (_ & Hnd & Hkeys).
  rewrite <- (length_fmap fst). apply Permutation_length.
  apply NoDup_Permutation; [done|apply NoDup_remove_dups|].
  intros k. unfold sources_of. by rewrite elem_of_remove_dups.
Qed.

(** *** Counting the two passes *)

Lemma concat_length_le {A B} (f : A -> list B) (d : list A) (c : nat) :
  Forall (fun p => length (f p) <= c) d ->
  length (concat (f <$> d)) <= length d * c.
Proof.
  induction 1 as [|p d Hp Hd IH]; [simpl; lia|].
  rewrite fmap_cons.
  change (concat (f p :: (f <$> d))) with (f p ++ concat (f <$> d)).
  rewrite length_app. cbn [length]. lia.
Qed.

Lemma concat_length_ones {A B} (f : A -> list B) (d : list A) :
  Forall (fun p => length (f p) = 1) d ->
  length (concat (f <$> d)) = length d.
Proof.
  induction 1 as [|p d Hp Hd IH]; [done|].
  rewrite fmap_cons.
  change (concat (f p :: (f <$> d))) with (f p ++ concat (f <$> d)).
  rewrite length_app. cbn [length]. lia.
Qed.

Lemma elem_of_concat_fmap {A B} (f : A -> list B) (d : list A) p x :
  p ∈ d -> x ∈ f p -> x ∈ concat (f <$> d).
Proof.
  intros Hp Hx. induction d as [|q d IH]; [by apply elem_of_nil in Hp|].
  rewrite fmap_cons.
  change (concat (f q :: (f <$> d))) with (f q ++ concat (f <$> d)).
  apply elem_of_app. apply elem_of_cons in Hp as [->|Hp]; auto.
Qed.

Section Diversify.
Variable top_k : Z.
Variable matches : list Match.

Lemma chunks_per_source_pos d : (1 <= chunks_per_source top_k d)%Z.
Proof. unfold chunks_per_source. lia. Qed.

Lemma first_pass_incl m :
  m ∈ first_pass top_k (by_source matches) ->
  m ∈ diverse_matches top_k matches.
Proof.
  intros Hm. unfold diverse_matches.
  destruct (Nat.ltb_spec 0 (length (by_source matches))) as [Hpos|Hzero].
  - apply elem_of_app. by left.
  - unfold first_pass in Hm.
    destruct (by_source matches); [|simpl in Hzero; lia].
    by apply elem_of_nil in Hm.
Qed.

(** The best match of every group passes the first pass. *)
Lemma first_pass_covers k :
  k ∈ (by_source matches).*1 ->
  exists m, m ∈ first_pass top_k (by_source matches) /\ source_of m = k.
Proof.
  intros Hk. apply list_elem_of_fmap in Hk as ([k' ms] & -> & Hin).
  destruct (by_source_spec matches) as (Hg & _ & _).
  unfold grouped in Hg. rewrite Forall_forall in Hg.
  destruct (Hg _ Hin) as [Hne Hsrc]. simpl in *.
  destruct ms as [|m0 ms]; [done|]. exists m0. split.
  - eapply (elem_of_concat_fmap _ (by_source matches) (k', m0 :: ms));
      [done|].
    unfold Py.slice_to.
    pose proof (chunks_per_source_pos (by_source matches)).
    destruct (Z.leb_spec 0 (chunks_per_source top_k (by_source matches)));
      [|lia].
    destruct (Z.to_nat (chunks_per_source top_k (by_source matches)))
      eqn:Hc; [lia|].
    simpl. apply list_elem_of_here.
  - by apply Forall_cons in Hsrc as [[? _] _].
Qed.

Lemma first_pass_length d :
  (Z.of_nat (length (first_pass top_k d))
   <= chunks_per_source top_k d * Z.of_nat (length d))%Z.
Proof.
  pose proof (chunks_per_source_pos d) as Hc.
  assert (length (first_pass top_k d)
          <= length d * Z.to_nat (chunks_per_source top_k d)).
  { apply concat_length_le. apply Forall_forall. intros [k ms] _.
    pose proof (slice_to_length_le (chunks_per_source top_k d) ms). lia. }
  nia.
Qed.

Lemma diverse_matches_length :
  (Z.of_nat (length (by_source matches)) <= top_k)%Z ->
  (Z.of_nat (length (diverse_matches top_k matches)) <= top_k)%Z.
Proof.
  intros Hk. unfold diverse_matches.
  destruct (Nat.ltb_spec 0 (length (by_source matches))) as [Hpos|Hzero];
    [|simpl; lia].
  rewrite length_app.
  pose proof (first_pass_length (by_source matches)) as Hfirst.
  unfold remaining_slots in *.
  destruct (Z.ltb_spec 0 (top_k - chunks_per_source top_k (by_source matches)
                                  * Z.of_nat (length (by_source matches))))
    as [Hrem|Hrem].
  - pose proof (slice_to_length_le
                  (top_k - chunks_per_source top_k (by_source matches)
                           * Z.of_nat (length (by_source matches)))
                  (sort_by_score (all_remaining top_k (by_source matches)))).
    lia.
  - simpl.
    assert (chunks_per_source top_k (by_source matches)
            * Z.of_nat (length (by_source matches)) <= top_k)%Z; [|lia].
    unfold chunks_per_source.
    pose proof (Z.mul_div_le top_k (Z.of_nat (length (by_source matches)))).
    lia.
Qed.

(** With fewer slots than sources, the first pass takes one match per
    source and there is no second pass. *)
Lemma diverse_matches_one_each :
  (0 <= top_k < Z.of_nat (length (by_source matches)))%Z ->
  length (diverse_matches top_k matches) = length (by_source matches).
Proof.
  intros Hk. unfold diverse_matches.
  destruct (Nat.ltb_spec 0 (length (by_source matches))) as [Hpos|Hzero];
    [|lia].
  assert (chunks_per_source top_k (by_source matches) = 1%Z) as Hone.
  { unfold chunks_per_source. rewrite Z.div_small by lia. done. }
  unfold remaining_slots, first_pass. rewrite Hone.
  destruct (Z.ltb_spec 0 (top_k - 1 * Z.of_nat (length (by_source matches))))
    as [Hrem|_]; [lia|].
  rewrite app_nil_r.
  apply concat_length_ones. apply Forall_forall. intros [k ms] Hin.
  destruct (by_source_spec matches) as (Hg & _ & _).
  unfold grouped in Hg. rewrite Forall_forall in Hg.
  destruct (Hg _ Hin) as [Hne _]. simpl in *.
  by destruct ms.
Qed.

End Diversify.

Lemma slice_to_incl {A} (k : Z) (l : list A) x : x ∈ Py.slice_to k l -> x ∈ l.
Proof.
  unfold Py.slice_to. destruct (0 <=? k)%Z; apply subseteq_take.
Qed.

Lemma slice_from_incl {A} (k : Z) (l : list A) x :
  x ∈ Py.slice_from k l -> x ∈ l.
Proof.
  unfold Py.slice_from. destruct (0 <=? k)%Z; apply subseteq_drop.
Qed.

Lemma elem_of_concat_fmap_inv {A B} (f : A -> list B) (d : list A) x :
  x ∈ concat (f <$> d) -> exists p, p ∈ d /\ x ∈ f p.
Proof.
  induction d as [|q d IH]; [intros Hx; by apply elem_of_nil in Hx|].
  rewrite fmap_cons.
  change (concat (f q :: (f <$> d))) with (f q ++ concat (f <$> d)).
  intros [Hx|Hx]%elem_of_app.
  - exists q. split; [apply list_elem_of_here|done].
  - destruct (IH Hx) as (p & Hp & Hxp).
    exists p. split; [by apply list_elem_of_further|done].
Qed.

Lemma group_member matches k ms m :
  (k, ms) ∈ by_source matches -> m ∈ ms -> m ∈ matches.
Proof.
  intros Hin Hm. destruct (by_source_spec matches) as (Hg & _ & _).
  unfold grouped in Hg. rewrite Forall_forall in Hg.
  destruct (Hg _ Hin) as [_ Hms]. rewrite Forall_forall in Hms.
  by destruct (Hms _ Hm).
Qed.

(** Diversification only selects: every final match is a candidate. *)
Lemma final_matches_incl top_k matches m :
  m ∈ final_matches top_k matches -> m ∈ matches.
Proof.
  unfold final_matches. intros Hm%slice_to_incl.
  rewrite sort_by_score_perm in Hm. unfold diverse_matches in Hm.
  destruct (0 <? length (by_source matches));
    [|by apply elem_of_nil in Hm].
  apply elem_of_app in Hm as [Hm|Hm].
  - apply elem_of_concat_fmap_inv in Hm as ([k ms] & Hin & Hm).
    eapply group_member; [exact Hin|]. by eapply slice_to_incl.
  - destruct (0 <? remaining_slots top_k (by_source matches))%Z;
      [|by apply elem_of_nil in Hm].
    apply slice_to_incl in Hm. rewrite sort_by_score_perm in Hm.
    apply elem_of_concat_fmap_inv in Hm as ([k ms] & Hin & Hm).
    eapply group_member; [exact Hin|]. by eapply slice_from_incl.
Qed.

(** The diversification proper, on the candidates: coverage of every
    source when the slots suffice, exactly [top_k] matches otherwise. *)
Lemma final_matches_coverage top_k matches :
  ((Z.of_nat (length (sources_of matches)) <= top_k)%Z ->
   forall m, m ∈ matches ->
             exists m', m' ∈ final_matches top_k matches
                        /\ source_of m' = source_of m)
  /\ ((0 <= top_k < Z.of_nat (length (sources_of matches)))%Z ->
      Z.of_nat (length (final_matches top_k matches)) = top_k).
Proof.
  rewrite <- by_source_length. unfold final_matches. split.
  - intros Hk m Hm.
    rewrite slice_to_ge
      by (rewrite sort_by_score_length; by apply diverse_matches_length).
    destruct (by_source_spec matches) as (_ & _ & Hkeys).
    destruct (first_pass_covers top_k matches (source_of m))
      as (m' & Hin & Hsrc).
    { apply Hkeys. by apply list_elem_of_fmap_2. }
    exists m'. split; [|done].
    rewrite sort_by_score_perm. by apply first_pass_incl.
  - intros Hk. apply slice_to_length_lt.
    rewrite sort_by_score_length, diverse_matches_one_each; lia.
Qed.

Lemma to_retrieved_source m r :
  to_retrieved m = Some r -> doc_source r = source_of m.
Proof.
  unfold to_retrieved, source_of.
  destruct (metadata m !! "text"); [|done].
  destruct (metadata m !! "source"); [|done].
  destruct (metadata m !! "domain"); [|done].
  by intros [= <-].
Qed.

Section WithVectorStore.
Context {store : VectorStore}.

(** What the function returns when the candidates are in and carry their
    metadata: the final matches, one entry each and in order. *)
Lemma retrieve_documents_final query domain top_k user_id include_reports
      matches :
  candidates query domain top_k user_id include_reports = Value matches ->
  Forall (fun m => is_Some (to_retrieved m)) matches ->
  Forall2 (fun m r => to_retrieved m = Some r)
          (final_matches top_k matches)
          (retrieve_documents query domain top_k user_id include_reports).
Proof.
  intros Hcand Hmeta. unfold retrieve_documents. rewrite Hcand.
  destruct (mapM_is_Some_2 to_retrieved (final_matches top_k matches))
    as [rs Hrs].
  { apply Forall_forall. intros m Hm. rewrite Forall_forall in Hmeta.
    apply Hmeta. by eapply final_matches_incl. }
  rewrite Hrs. simpl. by apply mapM_Some.
Qed.

(** C1. Let the index return candidates that carry their ["text"],
    ["source"] and ["domain"] metadata and fall into [S] distinct sources.
    If [top_k >= S], the list [retrieve_documents] returns has an entry
    from the source of every candidate, that is from every one of the [S]
    sources. If [top_k < S] (for a count [top_k >= 0]), the list has
    exactly [top_k] entries, so at most [top_k] sources are represented. *)
Theorem diversified_coverage query domain top_k user_id include_reports
        matches :
  candidates query domain top_k user_id include_reports = Value matches ->
  Forall (fun m => is_Some (to_retrieved m)) matches ->
  let S := length (sources_of matches) in
  let result :=
    retrieve_documents query domain top_k user_id include_reports in
  ((Z.of_nat S <= top_k)%Z ->
   forall m, m ∈ matches ->
             exists r, r ∈ result /\ doc_source r = source_of m)
  /\ ((0 <= top_k < Z.of_nat S)%Z ->
      Z.of_nat (length result) = top_k
      /\ (Z.of_nat (length (remove_dups (doc_source <$> result)))
          <= top_k)%Z).
Proof.
  intros Hcand Hmeta S result. subst S result.
  pose proof (retrieve_documents_final _ _ _ _ _ _ Hcand Hmeta) as Hfinal.
  destruct (final_matches_coverage top_k matches) as [Hcover Hexact].
  split.
  - intros Hk m Hm. destruct (Hcover Hk m Hm) as (m' & Hin & Hsrc).
    apply list_elem_of_lookup in Hin as [i Hi].
    destruct (Forall2_lookup_l _ _ _ _ _ Hfinal Hi) as (r & Hr & Hto).
    exists r. split; [by eapply list_elem_of_lookup_2|].
    by rewrite (to_retrieved_source _ _ Hto).
  - intros Hk. specialize (Hexact Hk).
    apply Forall2_length in Hfinal.
    split; [lia|].
    pose proof (remove_dups_length_le
                  (doc_source <$>
                   retrieve_documents query domain top_k user_id
                                      include_reports)) as Hd.
    rewrite length_fmap in Hd. lia.
Qed.

End WithVectorStore.

Lemma diversified_coverage_witness :
  (forall m, m ∈ Candidates.six ->
     exists r,
       r ∈ retrieve_documents (store := Candidates.shelf)
             "Compare the three reports" None 5 None false
       /\ doc_source r = source_of m)
  /\ (Z.of_nat (length (retrieve_documents (store := Candidates.shelf)
                          "Compare the three reports" None 2 None false))
      = 2%Z
      /\ (Z.of_nat (length (remove_dups
                              (doc_source <$>
                               retrieve_documents (store := Candidates.shelf)
                                 "Compare the three reports" None 2 None
                                 false))) <= 2)%Z).
Proof.
  split.
  - apply (diversified_coverage (store := Candidates.shelf)
             "Compare the three reports" None 5 None false Candidates.six).
    + vm_compute. reflexivity.
    + apply Forall_forall. intros m Hm.
      repeat (apply elem_of_cons in Hm as [->|Hm]; [by eexists|]).
      by apply elem_of_nil in Hm.
    + vm_compute. congruence.
  - apply (diversified_coverage (store := Candidates.shelf)
             "Compare the three reports" None 2 None false
             (take 4 Candidates.six)).
    + vm_compute. reflexivity.
    + apply Forall_forall. intros m Hm. simpl in Hm.
      repeat (apply elem_of_cons in Hm as [->|Hm]; [by eexists|]).
      by apply elem_of_nil in Hm.
    + split; vm_compute; congruence.
Defined.

End RetrieverFacts.

(** ** Retrieval: bounds, order, provenance and failure *)

Module RetrieverMore.
Import Retriever RetrieverFacts Order.

Lemma by_source_add_concat k m d :
  concat (by_source_add k m d).*2 ≡ₚ concat d.*2 ++ [m].
Proof.
  induction d as [|[k' ms] d IH].
  - done.
  - cbn [by_source_add]. destruct (decide (k = k')) as [->|Hne].
    + rewrite !fmap_cons. cbn [snd concat].
      rewrite <- !app_assoc. apply Permutation_app_head.
      apply Permutation_app_comm.
    + rewrite !fmap_cons. cbn [snd concat]. rewrite IH.
      by rewrite app_assoc.
Qed.

(** The groups partition the candidates. *)
Lemma by_source_concat matches : concat (by_source matches).*2 ≡ₚ matches.
Proof.
  unfold by_source. induction matches as [|m l IH] using rev_ind; [done|].
  rewrite foldl_snoc, by_source_add_concat, IH. done.
Qed.

Lemma slices_concat (c : Z) (d : list (string * list Match)) :
  concat ((fun '(_, ms) => Py.slice_to c ms) <$> d)
  ++ concat ((fun '(_, ms) => Py.slice_from c ms) <$> d)
  ≡ₚ concat d.*2.
Proof.
  induction d as [|[k ms] d IH]; [done|].
  rewrite !fmap_cons. cbn [snd concat].
  rewrite <- IH, <- !app_assoc. 
  assert (Py.slice_to c ms ++ Py.slice_from c ms = ms) as Hms.
  { unfold Py.slice_to, Py.slice_from.
    destruct (0 <=? c)%Z; apply take_drop. }
  rewrite <- Hms at 3. rewrite <- !app_assoc.
  apply Permutation_app_head.
  rewrite !app_assoc. apply Permutation_app_tail.
  apply Permutation_app_comm.
Qed.

Lemma slice_to_sublist {A} (k : Z) (l : list A) :
  Py.slice_to k l `sublist_of` l.
Proof. unfold Py.slice_to. destruct (0 <=? k)%Z; apply sublist_take. Qed.

Lemma diverse_matches_submseteq top_k matches :
  diverse_matches top_k matches ⊆+ matches.
Proof.
  unfold diverse_matches.
  destruct (0 <? length (by_source matches)); [|apply submseteq_nil_l].
  rewrite <- (by_source_concat matches) at 5.
  rewrite <- (slices_concat (chunks_per_source top_k (by_source matches))).
  apply submseteq_skips_l.
  destruct (0 <? remaining_slots top_k (by_source matches))%Z;
    [|apply submseteq_nil_l].
  etransitivity; [apply sublist_submseteq, slice_to_sublist|].
  apply Permutation_submseteq, sort_by_score_perm.
Qed.

(** The final matches are drawn from the candidates, none more often than
    it occurs among them. *)
Lemma final_matches_submseteq top_k matches :
  final_matches top_k matches ⊆+ matches.
Proof.
  unfold final_matches.
  etransitivity; [apply sublist_submseteq, slice_to_sublist|].
  etransitivity; [apply Permutation_submseteq, sort_by_score_perm|].
  apply diverse_matches_submseteq.
Qed.

Lemma by_score_trans a b c : by_score a b -> by_score b c -> by_score a c.
Proof. unfold by_score. intros Hab Hbc. by eapply Qle_trans. Qed.

Lemma insert_by_score_sorted m l :
  StronglySorted by_score l -> StronglySorted by_score (insert_by_score m l).
Proof.
  induction 1 as [|y l Hl IH Hy]; simpl.
  - repeat constructor.
  - destruct (Qle_bool (score y) (score m)) eqn:Hb.
    + apply Qle_bool_iff in Hb. constructor; [by constructor|].
      constructor; [exact Hb|].
      eapply Forall_impl; [exact Hy|]. intros z Hz.
      by apply (by_score_trans m y z).
    + constructor; [done|].
      assert (by_score y m) as Hym.
      { unfold by_score. apply Qlt_le_weak, Qnot_le_lt. intros Hle.
        apply Qle_bool_iff in Hle. congruence. }
      rewrite insert_by_score_perm. by constructor.
Qed.

Lemma sort_by_score_sorted l : StronglySorted by_score (sort_by_score l).
Proof.
  induction l as [|m l IH]; simpl; [constructor|].
  by apply insert_by_score_sorted.
Qed.

Lemma sublist_sorted {A} (R : relation A) (l k : list A) :
  l `sublist_of` k -> StronglySorted R k -> StronglySorted R l.
Proof.
  induction 1 as [|x l k Hs IH|x l k Hs IH]; intros Hk.
  - constructor.
  - apply StronglySorted_cons in Hk as [Hx Hk].
    apply StronglySorted_cons. split; [|by apply IH].
    apply Forall_forall. intros y Hy. rewrite Forall_forall in Hx.
    apply Hx. by eapply elem_of_sublist.
  - apply StronglySorted_cons in Hk as [_ Hk]. by apply IH.
Qed.

Lemma final_matches_sorted top_k matches :
  StronglySorted by_score (final_matches top_k matches).
Proof.
  unfold final_matches.
  eapply sublist_sorted; [apply slice_to_sublist|apply sort_by_score_sorted].
Qed.

Lemma to_retrieved_score m r : to_retrieved m = Some r -> doc_score r = score m.
Proof.
  unfold to_retrieved.
  destruct (metadata m !! "text"); [|done].
  destruct (metadata m !! "source"); [|done].
  destruct (metadata m !! "domain"); [|done].
  by intros [= <-].
Qed.

Lemma projected_sorted ms rs :
  Forall2 (fun m r => to_retrieved m = Some r) ms rs ->
  StronglySorted by_score ms -> StronglySorted by_doc_score rs.
Proof.
  induction 1 as [|m r ms rs Hmr Hrest IH]; intros Hs; [constructor|].
  apply StronglySorted_cons in Hs as [Hm Hs].
  apply StronglySorted_cons. split; [|by apply IH].
  clear IH Hs. induction Hrest as [|m' r' ms rs Hmr' _ IH]; [constructor|].
  apply Forall_cons in Hm as [Hm' Hm]. constructor; [|by apply IH].
  unfold by_doc_score. unfold by_score in Hm'.
  by rewrite (to_retrieved_score _ _ Hmr), (to_retrieved_score _ _ Hmr').
Qed.

Section WithVectorStore.
Context {store : VectorStore}.

(** The three shapes a call can take: no candidates, a final match
    without its metadata, or the final matches projected one by one. *)
Lemma retrieve_documents_cases query domain top_k user_id include_reports :
  retrieve_documents query domain top_k user_id include_reports = []
  \/ exists matches,
      candidates query domain top_k user_id include_reports = Value matches
      /\ Forall2 (fun m r => to_retrieved m = Some r)
                 (final_matches top_k matches)
                 (retrieve_documents query domain top_k user_id
                                     include_reports).
Proof.
  unfold retrieve_documents.
  destruct (candidates query domain top_k user_id include_reports)
    as [matches|e]; [|by left].
  destruct (mapM to_retrieved (final_matches top_k matches)) as [rs|] eqn:Hrs;
    [|by left].
  right. exists matches. split; [done|]. by apply mapM_Some.
Qed.

(** X1. For a count [top_k >= 0], [retrieve_documents] never returns more
    than [top_k] entries, whatever the index answered. *)
Theorem retrieve_documents_at_most_top_k query domain top_k user_id
        include_reports :
  (0 <= top_k)%Z ->
  (Z.of_nat (length (retrieve_documents query domain top_k user_id
                                        include_reports)) <= top_k)%Z.
Proof.
  intros Hk.
  destruct (retrieve_documents_cases query domain top_k user_id
                                     include_reports)
    as [-> | (matches & _ & Hfinal)]; [simpl; lia|].
  apply Forall2_length in Hfinal. rewrite <- Hfinal.
  by apply slice_to_length_le.
Qed.

(** X2. The entries [retrieve_documents] returns are in order of
    non-increasing score. *)
Theorem retrieve_documents_sorted query domain top_k user_id include_reports :
  StronglySorted by_doc_score
    (retrieve_documents query domain top_k user_id include_reports).
Proof.
  destruct (retrieve_documents_cases query domain top_k user_id
                                     include_reports)
    as [-> | (matches & _ & Hfinal)]; [constructor|].
  eapply projected_sorted; [exact Hfinal|apply final_matches_sorted].
Qed.

(** X3. Whatever [retrieve_documents] returns is the projection, entry by
    entry, of matches drawn from the candidates, none of them more often
    than the index returned it: nothing is invented and nothing is
    duplicated. *)
Theorem retrieve_documents_provenance query domain top_k user_id
        include_reports matches :
  candidates query domain top_k user_id include_reports = Value matches ->
  exists selected,
    selected ⊆+ matches
    /\ Forall2 (fun m r => to_retrieved m = Some r) selected
               (retrieve_documents query domain top_k user_id
                                   include_reports).
Proof.
  intros Hcand.
  destruct (retrieve_documents_cases query domain top_k user_id
                                     include_reports)
    as [-> | (matches' & Hcand' & Hfinal)].
  - exists []. split; [apply submseteq_nil_l|constructor].
  - rewrite Hcand in Hcand'. injection Hcand' as <-.
    exists (final_matches top_k matches). split; [|done].
    apply final_matches_submseteq.
Qed.

(** X4. One selected match that lacks its ["text"], ["source"] or
    ["domain"] empties the whole result: the [KeyError] of the final
    projection is caught by the function's [except] like any failure of
    the embedder or of the index, and [[]] is returned. *)
Theorem retrieve_documents_missing_key query domain top_k user_id
        include_reports matches m :
  candidates query domain top_k user_id include_reports = Value matches ->
  m ∈ final_matches top_k matches ->
  metadata m !! "text" = None \/ metadata m !! "source" = None
  \/ metadata m !! "domain" = None ->
  retrieve_documents query domain top_k user_id include_reports = [].
Proof.
  intros Hcand Hm Hkey. unfold retrieve_documents. rewrite Hcand.
  destruct (mapM to_retrieved (final_matches top_k matches)) as [rs|] eqn:Hrs;
    [|done].
  apply mapM_Some in Hrs.
  apply list_elem_of_lookup in Hm as [i Hi].
  destruct (Forall2_lookup_l _ _ _ _ _ Hrs Hi) as (r & _ & Hr).
  unfold to_retrieved in Hr.
  destruct Hkey as [Hk | [Hk | Hk]].
  - by rewrite Hk in Hr.
  - rewrite Hk in Hr. by destruct (metadata m !! "text").
  - rewrite Hk in Hr.
    by destruct (metadata m !! "text"), (metadata m !! "source").
Qed.

End WithVectorStore.

Lemma retrieve_documents_at_most_top_k_witness :
  (Z.of_nat (length (retrieve_documents (store := Candidates.shelf)
                       "Compare the three reports" None 3 None true))
   <= 3)%Z.
Proof.
  apply (retrieve_documents_at_most_top_k (store := Candidates.shelf)).
  lia.
Defined.

Lemma retrieve_documents_provenance_witness :
  exists selected,
    selected ⊆+ Candidates.six
    /\ Forall2 (fun m r => to_retrieved m = Some r) selected
               (retrieve_documents (store := Candidates.shelf)
                                   "Compare the three reports" None 5 None
                                   false).
Proof.
  apply (retrieve_documents_provenance (store := Candidates.shelf)
           "Compare the three reports" None 5 None false Candidates.six).
  vm_compute. reflexivity.
Defined.

Lemma retrieve_documents_missing_key_witness :
  retrieve_documents (store := Torn.torn_shelf)
                     "Compare the three reports" None 5 None false = [].
Proof.
  apply (retrieve_documents_missing_key (store := Torn.torn_shelf)
           "Compare the three reports" None 5 None false
           (Torn.textless :: Candidates.six) Torn.textless).
  - vm_compute. reflexivity.
  - vm_compute. apply list_elem_of_here.
  - left. reflexivity.
Defined.

End RetrieverMore.

(** ** The chunker: nothing lost, one chunk when it fits, numbering *)

Module ChunkerMore.
Import Chunker ChunkerFacts Layout.

Lemma assemble_from_snoc overlap seed parts part :
  assemble_from overlap seed (parts ++ [part])
  = assemble_from overlap seed parts
    ++ [seed_after overlap seed parts ++ part].
Proof.
  revert seed. induction parts as [|p parts IH]; intros seed; simpl; [done|].
  by rewrite IH.
Qed.

Lemma seed_after_snoc overlap seed parts part :
  seed_after overlap seed (parts ++ [part])
  = keep_overlap overlap (seed_after overlap seed parts ++ part).
Proof.
  revert seed. induction parts as [|p parts IH]; intros seed; simpl; [done|].
  by rewrite IH.
Qed.


Section WithHashlib.
Context {hashlib : Hashlib}.

Lemma covers_initial overlap : covers overlap initial [] [] [].
Proof. split; try done. by left. Qed.

Lemma chunk_body_covers chunk_size overlap st seen parts fresh i sentence :
  covers overlap st seen parts fresh ->
  exists parts' fresh',
    covers overlap (chunk_body chunk_size overlap st i sentence)
           (seen ++ [sentence]) parts' fresh'.
Proof.
  intros [Htext Hcur Hseen Hparts Hfresh]. unfold chunk_body.
  destruct (closes chunk_size st sentence) eqn:Hcl.
  - apply andb_true_iff in Hcl as [_ Hne%bool_decide_eq_true].
    destruct Hfresh as [Hnil|Hfresh]; [done|].
    exists (parts ++ [fresh]), [sentence]. split; simpl.
    + unfold assemble. rewrite assemble_from_snoc, !fmap_app, Htext.
      simpl. by rewrite Hcur.
    + by rewrite seed_after_snoc, Hcur.
    + rewrite concat_app. simpl. by rewrite app_nil_r, Hseen.
    + apply Forall_app. split; [done|]. by apply Forall_singleton.
    + by right.
  - exists parts, (fresh ++ [sentence]). split; simpl.
    + done.
    + by rewrite Hcur, app_assoc.
    + by rewrite app_assoc, Hseen.
    + done.
    + right. intros Hnil. by apply app_eq_nil in Hnil as [_ ?].
Qed.

Lemma chunk_loop_covers chunk_size overlap sentences :
  forall st seen parts fresh i,
    covers overlap st seen parts fresh ->
    exists parts' fresh',
      covers overlap (chunk_loop chunk_size overlap st i sentences)
             (seen ++ sentences) parts' fresh'.
Proof.
  induction sentences as [|s rest IH]; intros st seen parts fresh i Hc.
  - exists parts, fresh. by rewrite app_nil_r.
  - simpl.
    destruct (chunk_body_covers chunk_size _ _ _ _ _ i s Hc)
      as (parts' & fresh' & Hc').
    destruct (IH _ _ _ _ (S i) Hc') as (parts'' & fresh'' & Hc'').
    exists parts'', fresh''. by rewrite <- app_assoc in Hc''.
Qed.

(** X5. Chunking loses no sentence and repeats one only as overlap: the
    sentences of the text can be cut into consecutive non-empty runs, one
    per chunk, such that every chunk is the join of its run, prefixed
    (from the second chunk on) with the sentences [keep_overlap] keeps of
    the chunk before it. *)
Theorem chunks_cover_the_sentences text chunk_size overlap :
  exists parts : list (list string),
    concat parts = Py.re_split_sentences text
    /\ Forall (fun part => part <> []) parts
    /\ chunk_text <$> chunk_document_smart text chunk_size overlap
       = Py.join " " <$> assemble overlap parts.
Proof.
  unfold chunk_document_smart.
  destruct (chunk_loop_covers chunk_size overlap
              (Py.re_split_sentences text) initial [] [] [] 0
              (covers_initial overlap))
    as (parts & fresh & [Htext Hcur Hseen Hparts Hfresh]).
  simpl in Hseen.
  set (st := chunk_loop chunk_size overlap initial 0
                        (Py.re_split_sentences text)) in *.
  unfold flush. destruct (current_chunk st) as [|s0 l] eqn:Hc.
  - exists parts. symmetry in Hcur.
    apply app_eq_nil in Hcur as [_ ->]. rewrite app_nil_r in Hseen.
    done.
  - destruct Hfresh as [Hnil|Hfresh]; [done|].
    exists (parts ++ [fresh]). split; [|split].
    + rewrite concat_app. simpl. by rewrite app_nil_r.
    + apply Forall_app. split; [done|]. by apply Forall_singleton.
    + unfold assemble. rewrite assemble_from_snoc, !fmap_app, Htext.
      by rewrite <- Hcur.
Qed.






End WithHashlib.


End ChunkerMore.

(** ** Claims and scores of the ensemble aggregation *)

Module EnsembleMore.
Import Ensemble EnsembleFacts.

Lemma chars_app a b :
  list_ascii_of_string (a +:+ b)
  = list_ascii_of_string a ++ list_ascii_of_string b.
Proof.
  induction a as [|c a IH]; [done|].
  rewrite app_String. simpl. by rewrite IH.
Qed.

Lemma app_assoc_string a b c : (a +:+ b) +:+ c = a +:+ (b +:+ c).
Proof.
  induction a as [|x a IH]; [done|]. by rewrite !app_String, IH.
Qed.

Lemma app_empty_r s : s +:+ EmptyString = s.
Proof. induction s as [|c s IH]; [done|]. by rewrite app_String, IH. Qed.

(** [part] occurs in [s] as a contiguous run of characters. *)
Lemma part_refl s : exists before after, s = before +:+ s +:+ after.
Proof. exists EmptyString, EmptyString. by rewrite app_empty, app_empty_r. Qed.

Lemma part_cons c s p :
  (exists before after, s = before +:+ p +:+ after) ->
  exists before after, String c s = before +:+ p +:+ after.
Proof.
  intros (before & after & ->). exists (String c before), after.
  by rewrite app_String.
Qed.

Lemma part_trans s p q :
  (exists before after, s = before +:+ p +:+ after) ->
  (exists before after, p = before +:+ q +:+ after) ->
  exists before after, s = before +:+ q +:+ after.
Proof.
  intros (b1 & a1 & ->) (b2 & a2 & ->).
  exists (b1 +:+ b2), (a2 +:+ a1). by rewrite !app_assoc_string.
Qed.

Lemma part_chars (P : ascii -> Prop) s p :
  (exists before after, s = before +:+ p +:+ after) ->
  Forall P (list_ascii_of_string s) -> Forall P (list_ascii_of_string p).
Proof.
  intros (before & after & ->). rewrite !chars_app, !Forall_app. tauto.
Qed.

(** The pieces of [re.split]: free of delimiters, and parts of the text. *)
Lemma re_split_go_pieces delim s :
  forall in_run w ws,
    Py.re_split_go delim in_run s = (w, ws) ->
    (in_run = false -> exists after, s = w +:+ after)
    /\ Forall (fun piece =>
                 Forall (fun c => delim c = false)
                        (list_ascii_of_string piece)
                 /\ exists before after, s = before +:+ piece +:+ after)
              (w :: ws).
Proof.
  induction s as [|c s IH]; intros in_run w ws Hgo; simpl in Hgo.
  - injection Hgo as <- <-. split; [by exists EmptyString|].
    apply Forall_singleton. split; [constructor|apply part_refl].
  - destruct (delim c) eqn:Hc.
    + destruct in_run.
      * destruct (IH _ _ _ Hgo) as [_ Hall]. split; [done|].
        eapply Forall_impl; [exact Hall|]. simpl.
        intros piece [Hfree Hpart]. split; [done|by apply part_cons].
      * destruct (Py.re_split_go delim true s) as [w' ws'] eqn:Hs.
        injection Hgo as <- <-.
        destruct (IH _ _ _ Hs) as [_ Hall]. split.
        { intros _. by exists (String c s). }
        constructor.
        { split; [constructor|]. by exists EmptyString, (String c s). }
        eapply Forall_impl; [exact Hall|]. simpl.
        intros piece [Hfree Hpart]. split; [done|by apply part_cons].
    + destruct (Py.re_split_go delim false s) as [w' ws'] eqn:Hs.
      injection Hgo as <- <-.
      destruct (IH _ _ _ Hs) as [Hpre Hall].
      destruct (Hpre eq_refl) as [after Hafter].
      apply Forall_cons in Hall as [[Hfree _] Hall].
      split.
      { intros _. exists after. by rewrite app_String, <- Hafter. }
      constructor.
      { split; [by constructor|].
        exists EmptyString, after. by rewrite app_empty, app_String, <- Hafter. }
      eapply Forall_impl; [exact Hall|]. simpl.
      intros piece [Hf Hpart]. split; [done|by apply part_cons].
Qed.

Lemma re_split_class_pieces delim s :
  Forall (fun piece =>
            Forall (fun c => delim c = false) (list_ascii_of_string piece)
            /\ exists before after, s = before +:+ piece +:+ after)
         (Py.re_split_class delim s).
Proof.
  unfold Py.re_split_class.
  destruct (Py.re_split_go delim false s) as [w ws] eqn:Hs.
  by destruct (re_split_go_pieces delim s _ _ _ Hs).
Qed.

Lemma lstrip_suffix s : exists before, s = before +:+ Py.lstrip s.
Proof.
  induction s as [|c s [before IH]]; [by exists EmptyString|]. simpl.
  destruct (Py.isspace c); [|by exists EmptyString].
  exists (String c before). by rewrite app_String, <- IH.
Qed.

Lemma rstrip_prefix s : exists after, s = Py.rstrip s +:+ after.
Proof.
  induction s as [|c s [after IH]]; [by exists EmptyString|]. simpl.
  destruct (Py.rstrip s) as [|d r] eqn:Hr.
  - destruct (Py.isspace c).
    + by exists (String c s).
    + exists s. by rewrite app_String, app_empty.
  - exists after. by rewrite app_String, <- IH.
Qed.

Lemma strip_part s : exists before after, s = before +:+ Py.strip s +:+ after.
Proof.
  unfold Py.strip.
  destruct (lstrip_suffix s) as [before Hb].
  destruct (rstrip_prefix (Py.lstrip s)) as [after Ha].
  exists before, after. by rewrite <- Ha.
Qed.

Lemma rstrip_idem s : Py.rstrip (Py.rstrip s) = Py.rstrip s.
Proof.
  induction s as [|c s IH]; [done|]. simpl.
  destruct (Py.rstrip s) as [|d r] eqn:Hr.
  - destruct (Py.isspace c) eqn:Hc; [done|]. simpl. by rewrite Hc.
  - simpl. simpl in IH. by rewrite IH.
Qed.

Lemma lstrip_head s :
  Py.lstrip s = EmptyString
  \/ exists c rest, Py.lstrip s = String c rest /\ Py.isspace c = false.
Proof.
  induction s as [|c s IH]; [by left|]. simpl.
  destruct (Py.isspace c) eqn:Hc; [done|]. right. by exists c, s.
Qed.

Lemma rstrip_head c s :
  Py.isspace c = false -> exists rest, Py.rstrip (String c s) = String c rest.
Proof.
  intros Hc. simpl. destruct (Py.rstrip s); [|by eexists].
  rewrite Hc. by eexists.
Qed.

(** Stripping twice is stripping once. *)
Lemma strip_idem s : Py.strip (Py.strip s) = Py.strip s.
Proof.
  unfold Py.strip.
  destruct (lstrip_head s) as [->|(c & rest & -> & Hc)]; [done|].
  destruct (rstrip_head c rest Hc) as [r Hr].
  assert (Py.lstrip (Py.rstrip (String c rest)) = Py.rstrip (String c rest))
    as ->.
  { rewrite Hr. simpl. by rewrite Hc. }
  apply rstrip_idem.
Qed.

Lemma sum_counter_add y c :
  sum_list (counter_add y c).*2 = S (sum_list c.*2).
Proof.
  induction c as [|[k n] c IH]; [done|]. cbn [counter_add].
  destruct (decide (y = k)); rewrite !fmap_cons; cbn [snd sum_list foldr].
  - unfold id. lia.
  - rewrite IH. unfold id. lia.
Qed.

Lemma sum_Counter l : sum_list (Counter l).*2 = length l.
Proof.
  unfold Counter. induction l as [|y l IH] using rev_ind; [done|].
  rewrite foldl_snoc. cbn beta.
  rewrite sum_counter_add, IH, length_app. simpl. lia.
Qed.

Lemma twice_repeated_le (c : list (string * nat)) :
  2 * length (filter (fun '(claim, count) => 2 <= count) c)
  <= sum_list c.*2.
Proof.
  induction c as [|[k n] c IH]; [done|].
  rewrite filter_cons, fmap_cons.
  change (sum_list ((k, n).2 :: c.*2)) with (n + sum_list c.*2).
  destruct (decide (2 <= n)); [rewrite length_cons|]; lia.
Qed.

Lemma consensus_claims_half responses :
  2 * length (consensus_claims responses) <= length (all_claims responses).
Proof.
  unfold consensus_claims. rewrite length_fmap.
  rewrite <- (sum_Counter (all_claims responses)). apply twice_repeated_le.
Qed.

Lemma consensus_claims_NoDup responses : NoDup (consensus_claims responses).
Proof.
  unfold consensus_claims.
  destruct (Counter_spec (all_claims responses)) as (Hnd & _ & _).
  eapply sublist_NoDup; [exact Hnd|].
  apply fmap_sublist, sublist_filter.
Qed.

Lemma Qlen_nonneg {A} (l : list A) : (0 <= Qlen l)%Q.
Proof.
  unfold Qlen. change 0%Q with (inject_Z 0). rewrite <- Zle_Qle. lia.
Qed.

Lemma ratio_le (a b : nat) :
  a <= b ->
  (0 <= inject_Z (Z.of_nat a) / inject_Z (Z.of_nat (b `max` 1)) <= 1)%Q.
Proof.
  intros Hab.
  assert (0 < inject_Z (Z.of_nat (b `max` 1)))%Q as Hpos.
  { change 0%Q with (inject_Z 0). rewrite <- Zlt_Qlt. lia. }
  assert (0 <= inject_Z (Z.of_nat a))%Q as Ha.
  { change 0%Q with (inject_Z 0). rewrite <- Zle_Qle. lia. }
  assert (inject_Z (Z.of_nat a) <= inject_Z (Z.of_nat (b `max` 1)))%Q as Hle.
  { rewrite <- Zle_Qle. lia. }
  split.
  - apply Qle_shift_div_l; [done|]. lra.
  - apply Qle_shift_div_r; [done|]. lra.
Qed.

Lemma ratio_half (a b : nat) :
  2 * a <= b ->
  (inject_Z (Z.of_nat a) / inject_Z (Z.of_nat (b `max` 1)) <= 1 # 2)%Q.
Proof.
  intros Hab.
  assert (0 < inject_Z (Z.of_nat (b `max` 1)))%Q as Hpos.
  { change 0%Q with (inject_Z 0). rewrite <- Zlt_Qlt. lia. }
  assert (inject_Z 2 * inject_Z (Z.of_nat a)
          <= inject_Z (Z.of_nat (b `max` 1)))%Q as Hle.
  { rewrite <- inject_Z_mult, <- Zle_Qle. lia. }
  change (inject_Z 2) with 2%Q in Hle.
  apply Qle_shift_div_r; [done|]. lra.
Qed.

Section WithDifflib.
Context {difflib : Difflib}.

Lemma confidence_range responses document :
  (0 <= confidence (_aggregate_ensemble_responses responses document) <= 1)%Q.
Proof.
  unfold _aggregate_ensemble_responses.
  destruct responses as [|first rest] eqn:Hr; [simpl; lra|].
  rewrite <- Hr in *. clear Hr. cbn [confidence].
  destruct (consensus_claims responses) as [|c cs] eqn:Hc; [lra|].
  rewrite <- Hc. unfold Qlen. apply ratio_le, length_filter.
Qed.

(** X8. Whatever the responses, the aggregation's [confidence] lies in
    [0, 1] and its [agreement_score] in [0, 1/2]: a consensus claim is
    counted once but occurs at least twice among the extracted claims, so
    even identical responses never score an agreement above one half. *)
Theorem aggregate_scores_range responses document :
  let result := _aggregate_ensemble_responses responses document in
  (0 <= confidence result <= 1)%Q
  /\ (0 <= agreement_score result <= 1 # 2)%Q.
Proof.
  split; [apply confidence_range|].
  unfold _aggregate_ensemble_responses.
  pose proof (consensus_claims_half responses) as Hhalf.
  destruct responses as [|first rest] eqn:Hr; [simpl; lra|].
  rewrite <- Hr in *. clear Hr. cbn [agreement_score].
  destruct (all_claims responses) as [|c cs] eqn:Hc; [lra|].
  rewrite <- Hc in *. unfold Qlen. split.
  - apply ratio_le. lia.
  - by apply ratio_half.
Qed.

(** X9. The verified claims of the aggregation are, each listed once, the
    extracted claims that occur at least twice over all responses and
    that the document supports. *)
Theorem verified_claims_spec responses document :
  let result := _aggregate_ensemble_responses responses document in
  NoDup (verified_claims result)
  /\ forall claim,
      claim ∈ verified_claims result
      <-> 2 <= occurrences claim (all_claims responses)
          /\ _verify_claim_in_document claim document = true.
Proof.
  unfold _aggregate_ensemble_responses.
  destruct responses as [|first rest] eqn:Hr.
  - simpl. split; [apply NoDup_nil_2|]. intros claim. split.
    + by intros Hin%elem_of_nil.
    + intros [Hocc _]. unfold occurrences, all_claims in Hocc.
      simpl in Hocc. lia.
  - rewrite <- Hr. clear Hr. cbn [verified_claims]. split.
    + eapply sublist_NoDup; [apply consensus_claims_NoDup|].
      apply sublist_filter.
    + intros claim. rewrite list_elem_of_filter, consensus_claims_spec.
      tauto.
Qed.

Lemma cross_validate_bounds answer document :
  (0 <= _cross_validate answer document <= 1)%Q.
Proof.
  unfold _cross_validate.
  set (long := filter (fun s => 10 < String.length (Py.strip s))
                      (Py.re_split_class Py.is_terminator answer)).
  set (supported := filter (fun s => _verify_claim_in_document s document
                                     = true) long).
  pose proof (length_filter
                (fun s => _verify_claim_in_document s document = true) long)
    as Hle. fold supported in Hle.
  assert (0 < inject_Z (Z.of_nat (length long `max` 1)))%Q as Hpos.
  { change 0%Q with (inject_Z 0). rewrite <- Zlt_Qlt. lia. }
  split.
  - apply Qle_shift_div_l; [done|]. rewrite Qmult_0_l.
    change 0%Q with (inject_Z 0). rewrite <- Zle_Qle. lia.
  - apply Qle_shift_div_r; [done|].
    rewrite Qmult_1_l, <- Zle_Qle. lia.
Qed.

(** X11. The validation score of [_cross_validate] is a share: it lies
    in [0, 1] for every answer and document, also for an answer without
    any sentence longer than ten characters, whose score is 0. *)
Theorem cross_validate_range answer document :
  (0 <= _cross_validate answer document <= 1)%Q
  /\ (filter (fun s => 10 < String.length (Py.strip s))
             (Py.re_split_class Py.is_terminator answer) = [] ->
      (_cross_validate answer document == 0)%Q).
Proof.
  split; [apply cross_validate_bounds|].
  unfold _cross_validate. by intros ->.
Qed.

End WithDifflib.

(** X10. Every claim that [_extract_claims] returns is a contiguous part
    of the text, longer than twenty characters, free of the terminators
    [.], [!] and [?], and without white space at either end. *)
Theorem extracted_claims_shape text :
  Forall (fun claim =>
            20 < String.length claim
            /\ Py.strip claim = claim
            /\ Forall (fun c => Py.is_terminator c = false)
                      (list_ascii_of_string claim)
            /\ Py.contains text claim = true)
         (_extract_claims text).
Proof.
  unfold _extract_claims. apply Forall_forall. intros claim Hin.
  apply list_elem_of_filter in Hin as [Hclaim Hin].
  apply list_elem_of_fmap in Hin as (piece & -> & Hin).
  pose proof (re_split_class_pieces Py.is_terminator text) as Hall.
  rewrite Forall_forall in Hall. destruct (Hall _ Hin) as [Hfree Hpart].
  unfold is_claim in Hclaim.
  apply andb_true_iff in Hclaim as [Hclaim _].
  apply andb_true_iff in Hclaim as [Hlen%Nat.ltb_lt _].
  split; [done|]. split; [apply strip_idem|]. split.
  - eapply part_chars; [apply strip_part|done].
  - apply contains_spec. eapply part_trans; [exact Hpart|apply strip_part].
Qed.

End EnsembleMore.

(** ** The stages and the handlers: what every run does *)

Module PipelineMore.
Import Pipeline PipelineFacts Endpoints.

Section WithCollaborators.
Context {difflib : Difflib} {together : Together}.

Lemma complete_run request s :
  exists reply w,
    Complete_create request (world s) = (reply, w)
    /\ complete request s
       = (match reply with
          | Returns text => Value text
          | Raises e => Exception e
          end,
          {| world := w; issued := issued s ++ [request] |}).
Proof.
  unfold complete.
  destruct (Complete_create request (world s)) as [[text|e] w];
    by eexists _, _.
Qed.

(** The loop only appends to the responses, at most one per template. *)
Lemma ensemble_loop_responses document query templates :
  forall i responses s r s',
    ensemble_loop document query i templates responses s = (Value r, s') ->
    exists extra,
      r = responses ++ extra /\ length extra <= length templates.
Proof.
  induction templates as [|t rest IH]; intros i responses s r s' Hrun.
  - injection Hrun as <- <-. exists []. by rewrite app_nil_r.
  - cbn [ensemble_loop] in Hrun.
    unfold bind at 1, try_except, bind in Hrun.
    destruct (ensemble_pass document query i t s) as [[text|e] s1].
    + apply IH in Hrun as (extra & -> & Hlen).
      exists (text :: extra). rewrite <- app_assoc. split; [done|].
      simpl. lia.
    + apply IH in Hrun as (extra & -> & Hlen).
      exists extra. split; [done|]. simpl. lia.
Qed.

Lemma slice_to_templates num_passes :
  length (Py.slice_to num_passes prompt_templates) <= 3.
Proof.
  unfold Py.slice_to.
  destruct (0 <=? num_passes)%Z; rewrite length_take; simpl; lia.
Qed.

(** X12. For every [num_passes], also zero or negative, the ensemble
    returns a result and never raises; it issues one request per template
    of [prompt_templates[:num_passes]], in order, whether or not the calls
    succeed, and keeps at most one response per request. *)
Theorem ensemble_extraction_total document query num_passes s :
  exists result s' requests,
    ensemble_extraction document query num_passes s = (Value result, s')
    /\ issued s' = issued s ++ requests
    /\ prompt <$> requests
       = (fun t => EnsemblePrompt t document query)
           <$> Py.slice_to num_passes prompt_templates
    /\ length (all_responses result) <= length requests.
Proof.
  unfold ensemble_extraction.
  pose proof (slice_to_templates num_passes) as Hlen.
  destruct (ensemble_loop_runs document query
              (Py.slice_to num_passes prompt_templates) 0 [] s)
    as (r & s' & reqs & Hrun & Hiss & Hpr); [simpl; lia|].
  destruct (ensemble_loop_responses _ _ _ _ _ _ _ _ Hrun)
    as (extra & -> & Hextra).
  unfold bind. rewrite Hrun. eexists _, s', reqs.
  split; [reflexivity|]. split; [done|]. split; [done|].
  assert (length reqs = length (Py.slice_to num_passes prompt_templates))
    as ->.
  { by rewrite <- (length_fmap prompt), Hpr, length_fmap. }
  simpl in *. unfold Ensemble._aggregate_ensemble_responses.
  destruct extra; simpl in *; lia.
Qed.

Lemma Qlt_bool_spec x y : Qlt_bool x y = true <-> (x < y)%Q.
Proof. apply Qlt_bool_iff. Qed.

(** X13. The fact validator never raises: it returns a record after one
    completion call (when the extraction call fails) or two, with a
    validation score in [0, 1], and on each of its three exits the
    record is flagged reliable exactly when its score exceeds 0.7. *)
Theorem fact_extraction_validation_total document query s :
  exists result s' requests,
    fact_extraction_validation document query s = (Value result, s')
    /\ issued s' = issued s ++ requests
    /\ 1 <= length requests <= 2
    /\ (0 <= validation_score result <= 1)%Q
    /\ (reliable result = true <-> (0.7 < validation_score result)%Q).
Proof.
  unfold fact_extraction_validation, try_except at 1, bind at 1.
  match goal with
  | |- context [complete ?request s] =>
      destruct (complete_run request s) as (reply & w & _ & ->)
  end.
  destruct reply as [facts|e].
  - unfold try_except, bind.
    match goal with
    | |- context [complete ?request ?s1] =>
        destruct (complete_run request s1) as (reply & w' & _ & ->)
    end.
    destruct reply as [text|e]; simpl.
    + eexists _, _, [_; _]. split; [reflexivity|]. simpl.
      split; [by rewrite <- app_assoc|]. split; [lia|].
      split; [apply EnsembleMore.cross_validate_bounds|].
      apply Qlt_bool_iff.
    + eexists _, _, [_; _]. split; [reflexivity|]. simpl.
      split; [by rewrite <- app_assoc|]. split; [lia|].
      split; [lra|]. split; [done|]. intros Hlt. lra.
  - simpl. eexists _, _, [_]. split; [reflexivity|]. simpl.
    split; [done|]. split; [lia|].
    split; [lra|]. split; [done|]. intros Hlt. lra.
Qed.

Lemma fact_extraction_validation_calls document query s :
  exists result s' requests,
    fact_extraction_validation document query s = (Value result, s')
    /\ issued s' = issued s ++ requests
    /\ 1 <= length requests <= 2.
Proof.
  unfold fact_extraction_validation, try_except at 1, bind at 1.
  match goal with
  | |- context [complete ?request s] =>
      destruct (complete_run request s) as (reply & w & _ & ->)
  end.
  destruct reply as [facts|e].
  - unfold try_except, bind.
    match goal with
    | |- context [complete ?request ?s1] =>
        destruct (complete_run request s1) as (reply & w' & _ & ->)
    end.
    destruct reply as [text|e]; simpl.
    + eexists _, _, [_; _]. split; [reflexivity|]. simpl.
      split; [by rewrite <- app_assoc|]. lia.
    + eexists _, _, [_; _]. split; [reflexivity|]. simpl.
      split; [by rewrite <- app_assoc|]. lia.
  - simpl. eexists _, _, [_]. split; [reflexivity|]. simpl.
    split; [done|]. lia.
Qed.

Lemma rejected_data_is_a_400 data s :
  (forall d document query, data = Some d -> ~ accepted d document query) ->
  exists message, analyze_advanced data s = (Value (Error message 400), s).
Proof.
  intros Hrej. unfold analyze_advanced, try_except.
  destruct data as [d|]; [|by eexists].
  destruct (bool_decide (d = ∅)) eqn:He; [by eexists|].
  apply bool_decide_eq_false in He.
  set (document := Py.strip (default EmptyString (d !! "document"))) in *.
  set (query := Py.strip (default EmptyString (d !! "query"))) in *.
  destruct (String.eqb document EmptyString) eqn:Hd; [by eexists|].
  destruct (String.eqb query EmptyString) eqn:Hq; [by eexists|].
  simpl.
  destruct (Z.ltb_spec 200000 (Z.of_nat (String.length document)));
    [by eexists|].
  destruct (Z.ltb_spec 1000 (Z.of_nat (String.length query)));
    [by eexists|].
  apply String.eqb_neq in Hd. apply String.eqb_neq in Hq.
  destruct (Hrej d document query eq_refl). by repeat split.
Qed.

(** X14. A request that does not get past the input checks costs no
    completion call and leaves the session as it was. When reading the
    body raises (a missing body, or one that is not JSON) the answer has
    status 500 and carries the message; when the body is the JSON value
    null, an empty object, or an object of texts with a blank document or
    query, a document above 200000 or a query above 1000 characters, the
    answer has status 400. *)
Theorem rejected_request_costs_no_call request_json s :
  (forall d document query,
      request_json = Value (Some d) -> ~ accepted d document query) ->
  match request_json with
  | Exception e =>
      Requests.analyze_advanced_request request_json s
      = (Value (Error e 500), s)
  | Value _ =>
      exists message,
        Requests.analyze_advanced_request request_json s
        = (Value (Error message 400), s)
  end.
Proof.
  intros Hrej. destruct request_json as [data|e]; [|done].
  apply rejected_data_is_a_400. intros d document query ->.
  by apply Hrej.
Qed.

(** X15. A request that passes the input checks always gets a response
    (the handler never raises) after five or six completion calls, the
    last of which is the critic's. The response is either the analysis,
    with [success] set and its confidence and reliability score both in
    [0, 1], or an error with status 500. *)
Theorem accepted_request_runs data document query s :
  accepted data document query ->
  exists response s' requests checked,
    analyze_advanced (Some data) s = (Value response, s')
    /\ issued s' = issued s ++ requests
    /\ 5 <= length requests <= 6
    /\ prompt <$> last requests
       = Some (AdversarialPrompt document query checked)
    /\ ((exists body,
            response = Json body
            /\ success body = true
            /\ (0 <= analysis_confidence body <= 1)%Q
            /\ (0 <= analysis_reliability_score body <= 1)%Q)
        \/ exists e, response = Error e 500).
Proof.
  intros Hacc. rewrite (analyze_advanced_accepted data document query Hacc).
  unfold try_except, run_stages, bind at 1.
  destruct (ensemble_loop_runs document query prompt_templates 0 [] s)
    as (r & s1 & reqs1 & Hrun1 & Hiss1 & Hpr1); [simpl; lia|].
  assert (length reqs1 = 3) as Hlen1.
  { by rewrite <- (length_fmap prompt), Hpr1. }
  unfold ensemble_extraction at 1, bind at 1.
  rewrite (slice_to_all_templates 3) by lia. rewrite Hrun1.
  unfold ret at 1, bind at 1.
  destruct (fact_extraction_validation_calls document query s1)
    as (fact & s2 & reqs2 & -> & Hiss2 & Hlen2).
  unfold adversarial_validation, bind.
  match goal with
  | |- context [complete ?request s2] =>
      destruct (complete_run request s2) as (reply & w & _ & ->)
  end.
  set (ensemble_result := Ensemble._aggregate_ensemble_responses r document).
  assert (forall s3 : session,
             s3 = {| world := w;
                     issued := issued s2
                               ++ [adversarial_request document query
                                     (consensus_answer ensemble_result)] |} ->
             issued s3
             = issued s
               ++ (reqs1 ++ reqs2
                   ++ [adversarial_request document query
                         (consensus_answer ensemble_result)])) as Hiss3.
  { intros s3 ->. simpl. by rewrite Hiss2, Hiss1, <- !app_assoc. }
  destruct reply as [problems|e].
  - eexists _, _, _, (consensus_answer ensemble_result).
    split; [reflexivity|]. split; [by apply Hiss3|].
    rewrite !length_app. simpl. split; [lia|].
    split; [by rewrite !app_assoc, last_snoc|].
    left. eexists. split; [reflexivity|]. simpl. split; [done|].
    split; [apply EnsembleMore.confidence_range|apply reliability_of_range].
  - eexists _, _, _, (consensus_answer ensemble_result).
    split; [reflexivity|]. split; [by apply Hiss3|].
    rewrite !length_app. simpl. split; [lia|].
    split; [by rewrite !app_assoc, last_snoc|].
    right. by eexists.
Qed.

(** X16. When the completion endpoint cannot be reached, so that every
    call raises, a request that passes the input checks is answered with
    status 500 after exactly five calls: the three ensemble passes, the
    fact extraction (its second stage is skipped), and the critic, which
    is asked to check the placeholder answer of the empty ensemble. *)
Theorem outage_is_a_500 data document query s :
  accepted data document query ->
  (forall request w, exists e w', Complete_create request w = (Raises e, w')) ->
  exists e s' requests,
    analyze_advanced (Some data) s = (Value (Error e 500), s')
    /\ issued s' = issued s ++ requests
    /\ prompt <$> requests
       = [EnsemblePrompt StrictCitation document query;
          EnsemblePrompt ChainOfThought document query;
          EnsemblePrompt NegativeInstruction document query;
          FactExtractionPrompt document query;
          AdversarialPrompt document query "Unable to generate response"].
Proof.
  intros Hacc Hdown.
  assert (forall request s0, exists e w',
             complete request s0
             = (Exception e,
                {| world := w'; issued := issued s0 ++ [request] |}))
    as Hcomplete.
  { intros request s0. unfold complete.
    destruct (Hdown request (world s0)) as (e & w' & ->). by eexists _, _. }
  rewrite (analyze_advanced_accepted data document query Hacc).
  unfold try_except, run_stages, bind at 1.
  unfold ensemble_extraction, bind at 1.
  rewrite (slice_to_all_templates 3) by lia.
  unfold prompt_templates. cbn [ensemble_loop].
  unfold ensemble_pass. cbn [lookup list_lookup temperatures].
  repeat (unfold bind at 1, try_except at 1, bind at 1;
          match goal with
          | |- context [complete ?request ?s0] =>
              destruct (Hcomplete request s0) as (? & ? & ->)
          end; unfold ret at 1).
  unfold ret at 1. unfold bind at 1, ret at 1, bind at 1.
  unfold fact_extraction_validation, try_except at 1, bind at 1.
  match goal with
  | |- context [complete ?request ?s0] =>
      destruct (Hcomplete request s0) as (? & ? & ->)
  end.
  unfold ret, adversarial_validation, bind.
  match goal with
  | |- context [complete ?request ?s0] =>
      destruct (Hcomplete request s0) as (e & w' & ->)
  end.
  eexists e, _, _. split; [reflexivity|]. simpl.
  split; [by rewrite <- !app_assoc|]. done.
Qed.

End WithCollaborators.

Section Validate.
Context {together : Together}.

(** X20. The handler of [/api/validate-answer] never raises. Without a
    body it answers 500 and calls nothing; with a body it checks nothing:
    it sends the three texts as they are, absent ones as empty texts, to
    the critic in one call, and answers with the scored verdict when the
    call returns and with a 500 when the call raises. *)
Theorem validate_answer_total data s :
  exists response s',
    validate_answer data s = (Value response, s')
    /\ match data with
       | None => s' = s /\ exists e, response = ValidateError e 500
       | Some d =>
           exists reply w,
             Complete_create
               (adversarial_request (default EmptyString (d !! "document"))
                                    (default EmptyString (d !! "query"))
                                    (default EmptyString (d !! "answer")))
               (world s) = (reply, w)
             /\ world s' = w
             /\ issued s'
                = issued s
                  ++ [adversarial_request
                        (default EmptyString (d !! "document"))
                        (default EmptyString (d !! "query"))
                        (default EmptyString (d !! "answer"))]
             /\ response
                = match reply with
                  | Returns problems => Validated (score_problems problems)
                  | Raises e => ValidateError e 500
                  end
       end.
Proof.
  unfold validate_answer, try_except.
  destruct data as [d|].
  - unfold bind, adversarial_validation, bind.
    match goal with
    | |- context [complete ?request s] =>
        destruct (complete_run request s) as (reply & w & Hcall & ->)
    end.
    destruct reply as [problems|e]; eexists _, _;
      (split; [reflexivity|]); eexists _, w; by rewrite Hcall.
  - eexists _, _. split; [reflexivity|]. split; [done|by eexists].
Qed.

End Validate.

Lemma rejected_request_costs_no_call_witness :
  (exists message,
      Requests.analyze_advanced_request
        (difflib := identical_or_not) (together := scripted)
        (Value (Some Outage.blank_query)) (Samples.start Samples.agreeable)
      = (Value (Error message 400), Samples.start Samples.agreeable))
  /\ Requests.analyze_advanced_request
       (difflib := identical_or_not) (together := scripted)
       (Exception "415 Unsupported Media Type")
       (Samples.start Samples.agreeable)
     = (Value (Error "415 Unsupported Media Type" 500),
        Samples.start Samples.agreeable).
Proof.
  split.
  - apply (rejected_request_costs_no_call (difflib := identical_or_not)
             (together := scripted) (Value (Some Outage.blank_query))
             (Samples.start Samples.agreeable)).
    intros d document query Hd (_ & _ & Hquery & _ & Hne & _).
    injection Hd as <-. apply Hne. rewrite Hquery. vm_compute. reflexivity.
  - apply (rejected_request_costs_no_call (difflib := identical_or_not)
             (together := scripted) (Exception "415 Unsupported Media Type")
             (Samples.start Samples.agreeable)).
    intros d document query Hd. discriminate.
Defined.

Lemma sample_accepted :
  accepted Samples.body Samples.document Samples.query.
Proof.
  split; [by vm_compute|].
  split; [vm_compute; reflexivity|]. split; [vm_compute; reflexivity|].
  split; [done|]. split; [done|]. split; vm_compute; congruence.
Defined.

Lemma accepted_request_runs_witness :
  exists response s' requests checked,
    analyze_advanced (difflib := identical_or_not) (together := scripted)
                     (Some Samples.body) (Samples.start Samples.agreeable)
    = (Value response, s')
    /\ issued s' = issued (Samples.start Samples.agreeable) ++ requests
    /\ 5 <= length requests <= 6
    /\ prompt <$> last requests
       = Some (AdversarialPrompt Samples.document Samples.query checked)
    /\ ((exists body,
            response = Json body
            /\ success body = true
            /\ (0 <= analysis_confidence body <= 1)%Q
            /\ (0 <= analysis_reliability_score body <= 1)%Q)
        \/ exists e, response = Error e 500).
Proof.
  apply (accepted_request_runs (difflib := identical_or_not)
           (together := scripted) Samples.body Samples.document
           Samples.query (Samples.start Samples.agreeable) sample_accepted).
Defined.

Lemma outage_is_a_500_witness :
  exists e s' requests,
    analyze_advanced (difflib := identical_or_not)
                     (together := Outage.unreachable)
                     (Some Samples.body) Outage.offline
    = (Value (Error e 500), s')
    /\ issued s' = issued Outage.offline ++ requests
    /\ prompt <$> requests
       = [EnsemblePrompt StrictCitation Samples.document Samples.query;
          EnsemblePrompt ChainOfThought Samples.document Samples.query;
          EnsemblePrompt NegativeInstruction Samples.document Samples.query;
          FactExtractionPrompt Samples.document Samples.query;
          AdversarialPrompt Samples.document Samples.query
                            "Unable to generate response"].
Proof.
  apply (outage_is_a_500 (difflib := identical_or_not)
           (together := Outage.unreachable) Samples.body Samples.document
           Samples.query Outage.offline sample_accepted).
  intros request w. by exists "Connection refused", w.
Defined.

End PipelineMore.

(** ** Query enhancement, ingestion and the user's documents *)

Module ServiceFacts.
Import Ensemble EnsembleFacts.

Lemma length_app_string a b :
  String.length (a +:+ b) = String.length a + String.length b.
Proof.
  induction a as [|c a IH]; [done|]. rewrite app_String. simpl. by rewrite IH.
Qed.

Section Enhance.
Import Web.
Context {Doc : Type} (get_text : Doc -> option string).

Lemma context_snippets_take doc_context :
  context_snippets get_text (take 2 doc_context)
  = context_snippets get_text doc_context.
Proof.
  unfold context_snippets, Py.slice_to. simpl.
  by rewrite take_take.
Qed.

(** X17. The enhanced search query is the original query, possibly
    followed by a space and at most 150 characters of context: it never
    grows by more than 151 characters, and only the first two documents
    of the context matter. *)
Theorem enhanced_query_extends original_query doc_context :
  exists suffix,
    create_enhanced_search_query get_text original_query doc_context
    = original_query +:+ suffix
    /\ String.length suffix <= 151
    /\ create_enhanced_search_query get_text original_query doc_context
       = create_enhanced_search_query get_text original_query
                                      (take 2 doc_context).
Proof.
  unfold create_enhanced_search_query.
  destruct doc_context as [|doc rest].
  { exists EmptyString. rewrite EnsembleMore.app_empty_r.
    split; [done|]. split; [simpl; lia|done]. }
  rewrite <- (context_snippets_take (doc :: rest)).
  change (take 2 (doc :: rest)) with (doc :: take 1 rest).
  destruct (context_snippets get_text (doc :: take 1 rest))
    as [|snippet snippets].
  { exists EmptyString. rewrite EnsembleMore.app_empty_r.
    split; [done|]. split; [simpl; lia|done]. }
  eexists. split; [reflexivity|]. split; [|done].
  rewrite length_app_string. change (String.length " ") with 1.
  pose proof (length_substring_le (Py.join " " (snippet :: snippets)) 0 150).
  unfold first_chars. lia.
Qed.

End Enhance.

Section Batches.
Import Ingest.

Lemma concat_batches {A} (b n : nat) (l : list A) :
  concat ((fun i => take b (drop i l)) <$> ((fun k => k * b) <$> seq 0 n))
  = take (n * b) l.
Proof.
  induction n as [|n IH]; [done|].
  rewrite seq_S, !fmap_app, concat_app, IH. simpl.
  rewrite app_nil_r, take_take_drop. f_equal. lia.
Qed.

Lemma batches_needed (len : nat) :
  len <= (len + 99) / 100 * 100
  /\ ((len + 99) / 100 - 1) * 100 < len + (if len is 0 then 1 else 0).
Proof.
  pose proof (Nat.div_mod_eq (len + 99) 100) as Hdiv.
  pose proof (Nat.mod_upper_bound (len + 99) 100) as Hmod.
  destruct len; [by vm_compute|]. lia.
Qed.

(** X18. The batches that [ingest_document] upserts partition the
    vectors: concatenated in order they give back the list, every batch
    holds between 1 and 100 vectors, and there are [ceil(n / 100)] of
    them (none for no vector). *)
Theorem upsert_batches_partition {A} (vectors : list A) :
  concat (upsert_batches vectors) = vectors
  /\ Forall (fun batch => 1 <= length batch <= 100) (upsert_batches vectors)
  /\ length (upsert_batches vectors) = (length vectors + 99) / 100.
Proof.
  unfold upsert_batches, range_from_zero, batch_size.
  replace (length vectors + 100 - 1) with (length vectors + 99) by lia.
  destruct (batches_needed (length vectors)) as [Hup Hlow].
  split; [|split].
  - rewrite concat_batches. apply take_ge. lia.
  - apply Forall_forall. intros batch Hin.
    apply list_elem_of_fmap in Hin as (i & -> & Hin).
    apply list_elem_of_fmap in Hin as (k & -> & Hin).
    apply elem_of_seq in Hin. rewrite length_take, length_drop.
    destruct (length vectors); [simpl in *; lia|]. lia.
  - by rewrite !length_fmap, length_seq.
Qed.

Context {ingestion : Ingestion}.

Lemma upload_loop_spec files domain user_id :
  forall results chunks index,
    let out := upload_loop files domain user_id results chunks index in
    entry_file <$> out.1.1 = (entry_file <$> results) ++ (filename <$> files)
    /\ (chunks = sum_list (entry_chunks <$> results) ->
        out.1.2 = sum_list (entry_chunks <$> out.1.1)).
Proof.
  induction files as [|file rest IH]; intros results chunks index.
  - simpl. by rewrite app_nil_r.
  - cbn [upload_loop].
    destruct (ingest_document file domain user_id index)
      as [[result|e] index'].
    + destruct (IH (results ++ [Succeeded (filename file) result])
                   (chunks + chunks_created result) index') as [Hfiles Hsum].
      cbn zeta. split.
      * rewrite Hfiles, fmap_app, <- app_assoc. done.
      * intros ->. apply Hsum. rewrite fmap_app, sum_list_with_app. simpl. unfold id. lia.
    + destruct (IH (results ++ [Failed (filename file) e]) chunks index')
        as [Hfiles Hsum].
      cbn zeta. split.
      * rewrite Hfiles, fmap_app, <- app_assoc. done.
      * intros ->. apply Hsum. rewrite fmap_app, sum_list_with_app. simpl. unfold id. lia.
Qed.

Lemma success_or_failure (entries : list UploadEntry) :
  length (filter (fun r => is_success r = true) entries)
  + length (filter (fun r => is_failure r = true) entries)
  = length entries.
Proof.
  induction entries as [|[file result|file e] entries IH]; [done| |].
  - rewrite filter_cons_True, filter_cons_False by done. simpl. lia.
  - rewrite filter_cons_False, filter_cons_True by done. simpl. lia.
Qed.

(** X21. A batch upload accounts for every file: the report lists one
    entry per file, in the order of the files and under their names, a
    file that fails is recorded and does not stop the others, the
    successes and the failures add up to the total, and the chunk total
    is the sum over the files that succeeded. *)
Theorem batch_upload_accounts files domain user_id index :
  let report := (batch_upload files domain user_id index).1 in
  entry_file <$> results report = filename <$> files
  /\ total report = length files
  /\ successful report + failed report = total report
  /\ total_chunks report = sum_list (entry_chunks <$> results report).
Proof.
  unfold batch_upload.
  destruct (upload_loop_spec files domain user_id [] 0 index)
    as [Hfiles Hsum].
  destruct (upload_loop files domain user_id [] 0 index)
    as [[entries chunks] index'].
  simpl in *. split; [done|]. split; [done|]. split; [|by apply Hsum].
  rewrite success_or_failure.
  by rewrite <- (length_fmap entry_file), Hfiles, length_fmap.
Qed.

End Batches.

Section Documents.
Import Library.

Lemma keys_count_chunk source documents :
  (count_chunk source documents).*1 = documents.*1.
Proof.
  unfold count_chunk. induction documents as [|[k d] l IH]; [done|].
  rewrite !fmap_cons, IH. by destruct (decide (k = source)).
Qed.

Lemma occurrences_cons x y l :
  occurrences x (y :: l)
  = (if decide (y = x) then 1 else 0) + occurrences x l.
Proof.
  unfold occurrences. rewrite filter_cons. by destruct (decide (y = x)).
Qed.

Lemma occurrences_snoc x y l :
  occurrences x (l ++ [y])
  = occurrences x l + (if decide (y = x) then 1 else 0).
Proof.
  unfold occurrences. rewrite filter_app, length_app, filter_cons.
  destruct (decide (y = x)); simpl; lia.
Qed.

Lemma occurrences_absent x l : x ∉ l -> occurrences x l = 0.
Proof.
  intros Hx. induction l as [|y l IH]; [done|].
  apply not_elem_of_cons in Hx as [Hne Hx].
  rewrite occurrences_cons, decide_False by done. by rewrite IH.
Qed.

Lemma occurrences_NoDup x l : NoDup l -> x ∈ l -> occurrences x l = 1.
Proof.
  induction 1 as [|y l Hy Hl IH]; intros Hin.
  - by apply elem_of_nil in Hin.
  - rewrite occurrences_cons. destruct (decide (y = x)) as [->|Hne].
    + by rewrite occurrences_absent.
    + apply elem_of_cons in Hin as [?|Hin]; [by subst|]. by rewrite IH.
Qed.

(** Counting a chunk of [source] adds one chunk per entry of [source]. *)
Lemma chunks_count_chunk source documents :
  sum_list_with (fun p => doc_chunks p.2) (count_chunk source documents)
  = sum_list_with (fun p => doc_chunks p.2) documents
    + occurrences source documents.*1.
Proof.
  unfold count_chunk. induction documents as [|[k d] l IH]; [done|].
  rewrite !fmap_cons, occurrences_cons. cbn [sum_list_with].
  rewrite IH.
  destruct (decide (k = source)); simpl; case_decide; try done; lia.
Qed.

Lemma count_chunk_Forall source documents
      (Q R : string * UserDocument -> Prop) :
  (forall k d, Q (k, d) -> k = source ->
               R (k, {| doc_filename := doc_filename d;
                        doc_chunks := doc_chunks d + 1;
                        doc_timestamp := doc_timestamp d |})) ->
  (forall k d, Q (k, d) -> k <> source -> R (k, d)) ->
  Forall Q documents -> Forall R (count_chunk source documents).
Proof.
  intros Hhit Hmiss Hall. unfold count_chunk. apply Forall_fmap.
  eapply Forall_impl; [exact Hall|]. intros [k d] HQ. simpl.
  destruct (decide (k = source)); [by apply Hhit|by apply Hmiss].
Qed.

Lemma first_of_snoc source matches m m' :
  first_of source matches m -> first_of source (matches ++ [m']) m.
Proof.
  intros (before & after & -> & Hs & Hb).
  exists before, (after ++ [m']). by rewrite <- app_assoc.
Qed.

Lemma describes_other matches m document :
  doc_filename document <> source_label m ->
  describes matches document -> describes (matches ++ [m]) document.
Proof.
  intros Hne (Hcount & m0 & Hfirst & Hts). split.
  - rewrite fmap_app. simpl. rewrite occurrences_snoc, decide_False; [lia|].
    congruence.
  - exists m0. split; [by apply first_of_snoc|done].
Qed.

Lemma describes_same matches m document :
  doc_filename document = source_label m ->
  describes matches document ->
  describes (matches ++ [m])
            {| doc_filename := doc_filename document;
               doc_chunks := doc_chunks document + 1;
               doc_timestamp := doc_timestamp document |}.
Proof.
  intros Heq (Hcount & m0 & Hfirst & Hts). split; simpl.
  - rewrite fmap_app. simpl. rewrite occurrences_snoc, decide_True by done.
    lia.
  - exists m0. split; [by apply first_of_snoc|done].
Qed.

Lemma describes_new matches m :
  source_label m ∉ source_label <$> matches ->
  describes (matches ++ [m])
            {| doc_filename := source_label m;
               doc_chunks := 0 + 1;
               doc_timestamp := timestamp_label m |}.
Proof.
  intros Hnew. split; simpl.
  - rewrite fmap_app. simpl. rewrite occurrences_snoc, decide_True by done.
    by rewrite occurrences_absent.
  - exists m. split; [|done]. by exists matches, [].
Qed.

(** What the loop maintains after the matches [matches]. *)
Lemma documents_loop matches :
  NoDup (foldl documents_step [] matches).*1
  /\ (forall source,
         source ∈ (foldl documents_step [] matches).*1
         <-> source ∈ source_label <$> matches)
  /\ Forall (fun p => doc_filename p.2 = p.1 /\ describes matches p.2)
            (foldl documents_step [] matches)
  /\ sum_list_with (fun p => doc_chunks p.2) (foldl documents_step [] matches)
     = length matches.
Proof.
  induction matches as [|m l IH] using rev_ind.
  - simpl. split; [apply NoDup_nil_2|]. by repeat split.
  - rewrite foldl_snoc. destruct IH as (Hnd & Hkeys & Hall & Hsum).
    set (documents := foldl documents_step [] l) in *.
    unfold documents_step.
    rewrite keys_count_chunk, chunks_count_chunk, length_app, fmap_app.
    simpl. destruct (decide (source_label m ∈ documents.*1)) as [Hin|Hnin].
    + split; [done|]. split.
      { intros k. rewrite elem_of_app, Hkeys, list_elem_of_singleton.
        split; [tauto|]. intros [?| ->]; [done|]. by apply Hkeys. }
      split.
      { eapply count_chunk_Forall; [| |exact Hall].
        - intros k d [Hname Hdesc] ->. simpl in *. split; [done|].
          by apply describes_same.
        - intros k d [Hname Hdesc] Hne. simpl in *. split; [done|].
          apply describes_other; [congruence|done]. }
      rewrite Hsum, occurrences_NoDup by done. done.
    + assert (source_label m ∉ source_label <$> l) as Hnew.
      { intros Hin. by apply Hnin, Hkeys. }
      split.
      { rewrite fmap_app. apply NoDup_app. split; [done|].
        split; [|apply NoDup_singleton].
        intros k Hk Hk'. apply list_elem_of_singleton in Hk'. by subst. }
      split.
      { intros k. rewrite !fmap_app, !elem_of_app, Hkeys. simpl.
        by rewrite !list_elem_of_singleton. }
      split.
      { eapply (count_chunk_Forall _ _
                  (fun p => (p.1 <> source_label m
                             /\ doc_filename p.2 = p.1 /\ describes l p.2)
                            \/ p = (source_label m,
                                    {| doc_filename := source_label m;
                                       doc_chunks := 0;
                                       doc_timestamp := timestamp_label m |}))).
        - intros k d [[Hne _]|Heq] Hk; [done|]. injection Heq as -> ->.
          simpl. split; [done|]. by apply describes_new.
        - intros k d [(Hne & Hname & Hdesc)|Heq] Hk.
          + simpl in *. split; [done|].
            apply describes_other; [congruence|done].
          + injection Heq as -> ->. done.
        - apply Forall_app. split; [|apply Forall_singleton; by right].
          apply Forall_forall. intros [k d] Hp. left.
          rewrite Forall_forall in Hall. destruct (Hall _ Hp) as [Hname Hd].
          split; [|done]. simpl. intros ->. apply Hnin.
          apply list_elem_of_fmap. by exists (source_label m, d). }
      rewrite sum_list_with_app, fmap_app, Hsum. simpl.
      rewrite occurrences_snoc, decide_True, occurrences_absent by done.
      lia.
Qed.

Lemma names_are_keys (documents : list (string * UserDocument)) :
  Forall (fun p => doc_filename p.2 = p.1) documents ->
  doc_filename <$> documents.*2 = documents.*1.
Proof.
  induction 1 as [|[k d] l Hk Hl IH]; [done|].
  rewrite !fmap_cons, IH. simpl in *. by rewrite Hk.
Qed.

Context {store : VectorStore}.

(** X19. When the embedder and the index are loaded and answer, the
    handler of [/user-documents] lists every source among the matches
    exactly once; the chunk count of a listed document is the number of
    matches of its source, its timestamp is that of the first such match,
    and the counts add up to the number of matches. *)
Theorem user_documents_listing globals user_id embedding matches :
  embedder_loaded globals = true ->
  index_loaded globals = true ->
  encode "document" = Value embedding ->
  index_query embedding 100 (Some (own_documents user_id)) EmptyString
  = Value matches ->
  exists documents,
    get_user_documents globals user_id = Value (user_id, documents)
    /\ NoDup (doc_filename <$> documents)
    /\ (forall source,
           source ∈ doc_filename <$> documents
           <-> source ∈ source_label <$> matches)
    /\ Forall (describes matches) documents
    /\ sum_list (doc_chunks <$> documents) = length matches.
Proof.
  intros Hembedder Hindex Hencode Hquery. unfold get_user_documents.
  rewrite Hembedder, Hindex, Hencode, Hquery. simpl.
  eexists. split; [reflexivity|].
  destruct (documents_loop matches) as (Hnd & Hkeys & Hall & Hsum).
  unfold documents_of.
  rewrite names_are_keys
    by (eapply Forall_impl; [exact Hall|]; by intros p [? _]).
  split; [done|]. split; [done|]. split.
  - apply Forall_fmap. eapply Forall_impl; [exact Hall|]. by intros p [_ ?].
  - rewrite <- Hsum. clear.
    induction (foldl documents_step [] matches) as [|p l IH]; [done|].
    rewrite !fmap_cons. simpl. by rewrite <- IH.
Qed.

(** X24. The handler of [/user-documents] reads the module variables
    [embedder] and [index] instead of calling their loaders: as long as
    one of the two has not been loaded by another request, it fails (a
    500) whatever the index holds. *)
Theorem user_documents_need_loaded_globals globals user_id :
  embedder_loaded globals = false \/ index_loaded globals = false ->
  exists e, get_user_documents globals user_id = Exception e.
Proof.
  intros Hfresh. unfold get_user_documents.
  destruct (embedder_loaded globals); [|by eexists].
  destruct Hfresh as [? | ->]; [done|]. simpl.
  destruct (encode "document"); by eexists.
Qed.

End Documents.

Lemma user_documents_listing_witness :
  exists documents,
    Library.get_user_documents (store := Candidates.shelf) Library.loaded "u1"
    = Value ("u1", documents)
    /\ NoDup (Library.doc_filename <$> documents)
    /\ (forall source,
           source ∈ Library.doc_filename <$> documents
           <-> source ∈ Library.source_label <$> Candidates.six)
    /\ Forall (Library.describes Candidates.six) documents
    /\ sum_list (Library.doc_chunks <$> documents) = length Candidates.six.
Proof.
  apply (user_documents_listing (store := Candidates.shelf) Library.loaded
           "u1" [0.1; 0.2; 0.3]%Q Candidates.six); reflexivity.
Defined.

Lemma user_documents_need_loaded_globals_witness :
  exists e,
    Library.get_user_documents (store := Candidates.shelf) Library.fresh "u1"
    = Exception e.
Proof.
  apply (user_documents_need_loaded_globals (store := Candidates.shelf)
           Library.fresh "u1").
  by left.
Defined.

End ServiceFacts.

(** ** Scoring: the divisions that fail *)

Module ScoringFacts.
Import Chunker Scoring.



Section WithCollaborators.
Context {hashlib : Hashlib} {difflib : Difflib}.




End WithCollaborators.


End ScoringFacts.

(** ** The orchestrator when the fallback answer is itself a failure *)

Module PipelineEdge.
Import Pipeline PipelineFacts.

Section WithCollaborators.
Context {difflib : Difflib} {together : Together}.

(** X23. When the fact extractor's first call raises and the critic then
    counts two problems or more in the consensus answer, the orchestrator
    still answers with the analysis and [success] set, but the final
    answer is the fact validator's placeholder ["Unable to process
    request"], and the analysis is flagged unreliable. *)
Theorem fallback_answer_is_a_placeholder data document query s
        ensemble_result s1 e w2 problems w3 :
  accepted data document query ->
  ensemble_extraction document query 3 s = (Value ensemble_result, s1) ->
  Complete_create {| model := primary_model;
                     prompt := FactExtractionPrompt document query;
                     max_tokens := 500;
                     temperature := 0.05%Q;
                     top_p := None;
                     repetition_penalty := None |} (world s1)
  = (Raises e, w2) ->
  Complete_create
    (adversarial_request document query (consensus_answer ensemble_result))
    w2 = (Returns problems, w3) ->
  2 <= length (problem_lines problems) ->
  exists body s',
    analyze_advanced (Some data) s = (Value (Json body), s')
    /\ success body = true
    /\ final_answer body = "Unable to process request"
    /\ overall_is_reliable body = false.
Proof.
  intros Hacc Hens Hfact Hcritic Hcount.
  rewrite (analyze_advanced_accepted data document query Hacc).
  unfold try_except at 1, run_stages, bind at 1. rewrite Hens.
  unfold bind at 1, fact_extraction_validation, try_except at 1, bind at 1,
    complete at 1.
  rewrite Hfact. unfold ret at 1.
  unfold bind at 1, adversarial_validation, bind at 1, complete at 1.
  cbn [world]. rewrite Hcritic. unfold ret.
  eexists _, _. split; [reflexivity|]. simpl.
  apply Nat.ltb_ge in Hcount. by rewrite Hcount.
Qed.

End WithCollaborators.

Lemma fallback_answer_is_a_placeholder_witness :
  exists body s',
    analyze_advanced (difflib := identical_or_not) (together := scripted)
                     (Some Samples.body) (Samples.start Degraded.replies)
    = (Value (Json body), s')
    /\ success body = true
    /\ final_answer body = "Unable to process request"
    /\ overall_is_reliable body = false.
Proof.
  assert (Hrun : ensemble_extraction (difflib := identical_or_not)
                   (together := scripted) Samples.document Samples.query 3
                   (Samples.start Degraded.replies)
                 = Degraded.ensemble_run) by (vm_compute; reflexivity).
  unfold Degraded.ensemble_run in Hrun.
  eapply (fallback_answer_is_a_placeholder (difflib := identical_or_not)
            (together := scripted) Samples.body Samples.document
            Samples.query (Samples.start Degraded.replies)
            _ _ _ _ _ _ PipelineMore.sample_accepted Hrun).
  - reflexivity.
  - reflexivity.
  - vm_compute. lia.
Defined.

End PipelineEdge.
